(** * Discovery feed, swipes, matches and messages of the dating app.

    A shallow embedding of the Convex functions of the reference
    implementation (convex/queries/discovery.ts, convex/mutations/matching.ts,
    convex/mutations/messages.ts) together with the parts of the JavaScript
    and Convex run-time they call: [Array.prototype.slice],
    [Array.prototype.sort], [String.prototype.toLowerCase], the [Date]
    accessors, [Math.round], [db.query(..).withIndex(..)], [.unique()],
    [db.get], [db.insert] and [db.patch] with the validation of the
    schema. *)

From Stdlib Require Import List ZArith QArith Qround Qabs String Ascii Bool Lia.
From Stdlib Require Import Sorted Permutation Lqa.
Import ListNotations.

Set Implicit Arguments.
Close Scope Q_scope.

(* ===================================================================== *)
(** ** JavaScript library functions used by the handlers                  *)
(* ===================================================================== *)

Module JS.

Local Open Scope Z_scope.

(** [String.prototype.toLowerCase] on the ASCII range. *)
Definition lower_ascii (c : ascii) : ascii :=
  let n := nat_of_ascii c in
  if (Nat.leb 65 n && Nat.leb n 90)%bool then ascii_of_nat (n + 32) else c.

Fixpoint toLowerCase (s : string) : string :=
  match s with
  | EmptyString => EmptyString
  | String c r => String (lower_ascii c) (toLowerCase r)
  end.

(** The relative index of [Array.prototype.slice]: a negative index counts
    from the end, and every index is clamped to [0, len]. *)
Definition rel_index (len k : Z) : Z :=
  if k <? 0 then Z.max (len + k) 0 else Z.min k len.

(** [arr.slice(start, end)]. *)
Definition slice {A : Type} (l : list A) (start stop : Z) : list A :=
  let len := Z.of_nat (List.length l) in
  let k := rel_index len start in
  let final := rel_index len stop in
  firstn (Z.to_nat (final - k)) (skipn (Z.to_nat k) l).

(** The value of a computation in floating point: a finite double, read
    as a rational, or NaN. *)
Inductive number : Type :=
| NaN
| finite (q : Q).

(** [x > y], false for NaN. *)
Definition gt (x : number) (y : Q) : bool :=
  match x with
  | finite q => negb (Qle_bool q y)
  | NaN => false
  end.

(** [x - y]. *)
Definition sub (x y : number) : number :=
  match x, y with
  | finite a, finite b => finite (a - b)%Q
  | _, _ => NaN
  end.

(** A function of finite numbers on a number: NaN goes through the
    arithmetic operators and [Math.round]. *)
Definition lift (f : Q -> Q) (x : number) : number :=
  match x with
  | finite q => finite (f q)
  | NaN => NaN
  end.

(** The value of a comparator as [sort] reads it: NaN counts as +0. *)
Definition compare_value (v : number) : Q :=
  match v with
  | finite q => q
  | NaN => 0%Q
  end.

(** [x <= y], [x < y] and [x === y] between numbers: false with NaN. *)
Definition num_le (x y : number) : Prop :=
  match x, y with
  | finite a, finite b => (a <= b)%Q
  | _, _ => False
  end.

Definition num_lt (x y : number) : Prop :=
  match x, y with
  | finite a, finite b => (a < b)%Q
  | _, _ => False
  end.

Definition num_eq (x y : number) : Prop :=
  match x, y with
  | finite a, finite b => (a == b)%Q
  | _, _ => False
  end.

(** [x === d] for a finite [d], as a test. *)
Definition num_is (x : number) (d : Q) : bool :=
  match x with
  | finite q => Qeq_bool q d
  | NaN => false
  end.

(** [arr.sort(cmp)] is a stable sort: [a] is moved behind [b] only when
    [cmp(a, b) > 0].  It is written here as the stable insertion sort, on
    the value of the comparator as the sort reads it.  For a comparator
    that is not consistent, as [(a, b) => a.distance - b.distance] is when
    a distance is NaN, ECMAScript leaves the order to the implementation,
    of which this is one; what is proved about the order of the feed is
    proved for distances that are numbers. *)
Fixpoint sort_insert {A : Type} (cmp : A -> A -> Q) (x : A) (l : list A)
  : list A :=
  match l with
  | [] => [x]
  | y :: r =>
      if Qle_bool (cmp x y) 0 then x :: y :: r
      else y :: sort_insert cmp x r
  end.

Fixpoint sort {A : Type} (cmp : A -> A -> Q) (l : list A) : list A :=
  match l with
  | [] => []
  | x :: r => sort_insert cmp x (sort cmp r)
  end.

(** [Math.round]: the nearest integer, halves rounded up. *)
Definition Math_round (x : Q) : Z := Qfloor (x + (1 # 2))%Q.

(** The [Date] accessors, in UTC (the time zone of the Convex run-time),
    of a time stamp in milliseconds since the epoch.  [civil] is the
    proleptic Gregorian date of a day number: (year, month 1..12,
    day 1..31). *)
Definition ms_per_day : Z := 24 * 60 * 60 * 1000.

Definition civil (days : Z) : Z * Z * Z :=
  let z := days + 719468 in
  let era := z / 146097 in
  let doe := z - era * 146097 in
  let yoe := (doe - doe / 1460 + doe / 36524 - doe / 146096) / 365 in
  let y := yoe + era * 400 in
  let doy := doe - (365 * yoe + yoe / 4 - yoe / 100) in
  let mp := (5 * doy + 2) / 153 in
  let d := doy - (153 * mp + 2) / 5 + 1 in
  let m := if mp <? 10 then mp + 3 else mp - 9 in
  (if m <=? 2 then y + 1 else y, m, d).

Definition getFullYear (t : Z) : Z := fst (fst (civil (t / ms_per_day))).
Definition getMonth (t : Z) : Z := snd (fst (civil (t / ms_per_day))) - 1.
Definition getDate (t : Z) : Z := snd (civil (t / ms_per_day)).

End JS.

(* ===================================================================== *)
(** ** The Convex data layer                                              *)
(* ===================================================================== *)

(** Document identifiers are opaque; natural numbers stand for them. The
    order of a table (a list) is the order in which a scan returns its
    documents, and says nothing about the identifiers. *)
Definition Id := nat.

(** The errors the handlers throw, and the four the data layer throws
    itself: [unique] on several documents, [patch] on a missing document,
    a misused index range builder and a write that the schema rejects. *)
Inductive Error : Type :=
| NotAuthenticated      (* "Not authenticated" *)
| UserNotFound          (* "User not found" *)
| SwipeAlreadyRecorded  (* "Swipe already recorded": the conflict *)
| Unauthorized          (* "Unauthorized to send message in this conversation" *)
| InactiveMatch         (* "Cannot message in inactive match" *)
| NotUnique             (* unique() found more than one document *)
| DocumentNotFound      (* patch() of a document that does not exist *)
| IndexRangeMisuse      (* withIndex(): the range builder used a second time *)
| SchemaValidation.     (* a write with a field the schema does not declare *)

Inductive Result (A : Type) : Type :=
| Ok (a : A)
| Err (e : Error).
Arguments Ok {A} a.
Arguments Err {A} e.

(** [.unique()]: the single document, null when there is none, an error
    when there are several. *)
Definition unique {A : Type} (l : list A) : Result (option A) :=
  match l with
  | [] => Ok None
  | [x] => Ok (Some x)
  | _ :: _ :: _ => Err NotUnique
  end.

(** The range of [withIndex(index, q => ...)].  The builder [q] is used by
    chaining on the result of the call before, [q.eq(f1, v1).eq(f2, v2)],
    and once: it has no method [and], and a second call on [q] itself
    throws.  [q.and(q.eq(..), q.eq(..))] evaluates its arguments first, so
    that the second [q.eq] throws before the query reads anything.  (The
    builder of [.filter(q => ...)] is another one, which has [q.and].)  The
    queries of the handlers whose range is one [q.eq] are written as the
    filter they are. *)
Inductive IndexRange (Doc : Type) : Type :=
| q_eq (test : Doc -> bool)
| q_and (first second : IndexRange Doc).

Definition withIndex {Doc : Type} (range : IndexRange Doc)
    (table : list Doc) : Result (list Doc) :=
  match range with
  | q_eq test => Ok (filter test table)
  | q_and _ _ => Err IndexRangeMisuse
  end.

(** [.filter(..)] and [.collect()] behind [withIndex]. *)
Definition and_then {A B : Type} (r : Result A) (f : A -> B) : Result B :=
  match r with
  | Ok a => Ok (f a)
  | Err e => Err e
  end.

(** [db.patch(id, value)] validates the patched document against the schema
    of its table: a field of [value] that the schema does not declare is
    rejected.  [declared schema fields] says that the schema declares the
    fields. *)
Definition declared (schema fields : list string) : bool :=
  forallb (fun f => existsb (String.eqb f) schema) fields.

(** The identifier [db.insert] gives a new document: one no document of the
    table has. *)
Definition fresh_id (ids : list Id) : Id := S (list_max ids).

Inductive Action : Type := like | pass.

Definition Action_eqb (a b : Action) : bool :=
  match a, b with
  | like, like | pass, pass => true
  | _, _ => false
  end.

Record Location : Type := { latitude : Q; longitude : Q }.

Module User.
Record t : Type := mk {
  _id : Id;
  phone_number : string;
  first_name : option string;
  birth_date : option Z;          (* Unix time stamp, milliseconds *)
  gender : option string;
  bio : option string;
  location : option Location;
  max_distance : option Q;        (* default 50 *)
  age_min : option Z;             (* default 18 *)
  age_max : option Z;             (* default 100 *)
  show_me : option string         (* default "everyone" *)
}.
End User.

Module Swipe.
Record t : Type := mk {
  _id : Id;
  swiper_id : Id;
  swiped_id : Id;
  action : Action;
  created_at : Z
}.
End Swipe.

Module Match.
Record t : Type := mk {
  _id : Id;
  user1_id : Id;
  user2_id : Id;
  matched_at : Z;
  is_active : bool;
  created_at : Z
}.
End Match.

(** The fields of the matches table in the schema. *)
Definition matches_schema : list string :=
  ["user1_id"; "user2_id"; "matched_at"; "is_active"; "created_at"]%string.

Module Message.
Record t : Type := mk {
  _id : Id;
  match_id : Id;
  sender_id : Id;
  content : string;
  message_type : string;
  is_read : bool;
  sent_at : Z
}.
End Message.

Module Notification.
Record t : Type := mk {
  _id : Id;
  user_id : Id;
  type : string;
  related_id : option Id;
  title : string;
  message : string;
  is_read : bool;
  created_at : Z
}.
End Notification.

Record Db : Type := {
  users : list User.t;
  swipes : list Swipe.t;
  matches : list Match.t;
  messages : list Message.t;
  notifications : list Notification.t
}.

Definition empty_db : Db :=
  {| users := []; swipes := []; matches := []; messages := [];
     notifications := [] |}.

(** *** Handlers

    A handler reads and writes the database and may throw.  The first
    component of its result is the database with the writes made so far. *)
Definition Handler (A : Type) : Type := Db -> Db * Result A.

Definition ret {A : Type} (a : A) : Handler A := fun db => (db, Ok a).

Definition throw {A : Type} (e : Error) : Handler A := fun db => (db, Err e).

Definition bind {A B : Type} (h : Handler A) (k : A -> Handler B)
  : Handler B :=
  fun db =>
    match h db with
    | (db', Ok a) => k a db'
    | (db', Err e) => (db', Err e)
    end.

Declare Scope handler_scope.
Delimit Scope handler_scope with handler.
Notation "x <- h ;; k" := (bind h (fun x => k))
  (at level 61, h at next level, right associativity) : handler_scope.
Notation "h ;;; k" := (bind h (fun _ => k))
  (at level 61, right associativity) : handler_scope.

(** A read: a pure function of the current database. *)
Definition read {A : Type} (f : Db -> A) : Handler A :=
  fun db => (db, Ok (f db)).

(** A read whose query ends in [.unique()]; the query throws when its
    index range does. *)
Definition read_unique {A : Type} (f : Db -> Result (list A))
  : Handler (option A) :=
  fun db =>
    match f db with
    | Ok l => (db, unique l)
    | Err e => (db, Err e)
    end.

Definition write (f : Db -> Db) : Handler unit :=
  fun db => (f db, Ok tt).

(** [mutation({ handler })]: Convex runs a mutation as a transaction, so the
    writes of a handler that throws are not committed. *)
Definition mutation {A : Type} (h : Handler A) : Handler A :=
  fun db =>
    match h db with
    | (db', Ok a) => (db', Ok a)
    | (_, Err e) => (db, Err e)
    end.

(** [query({ handler })]: a handler that only reads. *)
Definition Query (A : Type) : Type := Db -> Result A.

(** The swipes of [swiper] on [swiped]. *)
Definition by_pair (swiper swiped : Id) (l : list Swipe.t) : list Swipe.t :=
  filter (fun s => Nat.eqb (Swipe.swiper_id s) swiper
                   && Nat.eqb (Swipe.swiped_id s) swiped) l.

(** The range that the handler passes for the index [by_pair]:
    [q => q.and(q.eq("swiper_id", swiper), q.eq("swiped_id", swiped))]. *)
Definition by_pair_range (swiper swiped : Id) : IndexRange Swipe.t :=
  q_and (q_eq (fun s => Nat.eqb (Swipe.swiper_id s) swiper))
        (q_eq (fun s => Nat.eqb (Swipe.swiped_id s) swiped)).

Definition insert_swipe (swiper swiped : Id) (a : Action) (now : Z)
  : Handler Id :=
  fun db =>
    let i := fresh_id (map Swipe._id (swipes db)) in
    ({| users := users db;
        swipes := swipes db ++ [Swipe.mk i swiper swiped a now];
        matches := matches db;
        messages := messages db;
        notifications := notifications db |}, Ok i).

Definition insert_match (u1 u2 : Id) (now : Z) : Handler Id :=
  fun db =>
    let i := fresh_id (map Match._id (matches db)) in
    ({| users := users db;
        swipes := swipes db;
        matches := matches db ++ [Match.mk i u1 u2 now true now];
        messages := messages db;
        notifications := notifications db |}, Ok i).

(* ===================================================================== *)
(** ** convex/mutations/matching.ts                                       *)
(* ===================================================================== *)

Record SwipeResult : Type := {
  swipe_id : Id;
  is_match : bool;
  match_id : option Id
}.

Local Open Scope handler_scope.

(** The handler of [recordSwipe]; [now] is the value of [Date.now()], which
    Convex keeps fixed during one function call. *)
Definition recordSwipe_handler (now : Z) (swiper_id swiped_id : Id)
    (action : Action) : Handler SwipeResult :=
  existingSwipe <- read_unique
    (fun db => withIndex (by_pair_range swiper_id swiped_id) (swipes db)) ;;
  match existingSwipe with
  | Some _ => throw SwipeAlreadyRecorded
  | None =>
      swipeId <- insert_swipe swiper_id swiped_id action now ;;
      match action with
      | like =>
          reverseSwipe <- read_unique
            (fun db =>
               and_then
                 (withIndex (by_pair_range swiped_id swiper_id) (swipes db))
                 (filter (fun s => Action_eqb (Swipe.action s) like))) ;;
          match reverseSwipe with
          | Some _ =>
              matchId <- insert_match swiper_id swiped_id now ;;
              ret {| swipe_id := swipeId; is_match := true;
                     match_id := Some matchId |}
          | None =>
              ret {| swipe_id := swipeId; is_match := false;
                     match_id := None |}
          end
      | pass =>
          ret {| swipe_id := swipeId; is_match := false; match_id := None |}
      end
  end.

Definition recordSwipe (now : Z) (swiper_id swiped_id : Id) (action : Action)
  : Handler SwipeResult :=
  mutation (recordSwipe_handler now swiper_id swiped_id action).

(** [db.patch] on the matches table: [fields] are the fields of the value
    that is patched in, [f] the update of those the schema declares. *)
Definition patch_match (i : Id) (fields : list string)
    (f : Match.t -> Match.t) : Handler unit :=
  fun db =>
    if existsb (fun m => Nat.eqb (Match._id m) i) (matches db) then
      if declared matches_schema fields then
        ({| users := users db;
            swipes := swipes db;
            matches := map (fun m => if Nat.eqb (Match._id m) i
                                     then f m else m) (matches db);
            messages := messages db;
            notifications := notifications db |}, Ok tt)
      else (db, Err SchemaValidation)
    else (db, Err DocumentNotFound).

(** The patch [{ is_active: false, updated_at: Date.now() }]; the schema
    of the matches table has no field [updated_at]. *)
Definition unmatchUsers (now : Z) (match_id : Id) : Handler unit :=
  mutation
    (patch_match match_id ["is_active"; "updated_at"]%string
       (fun m => Match.mk (Match._id m) (Match.user1_id m) (Match.user2_id m)
                          (Match.matched_at m) false (Match.created_at m))).

(* ===================================================================== *)
(** ** convex/mutations/messages.ts                                       *)
(* ===================================================================== *)

(** [db.get] on the matches table. *)
Definition get_match (i : Id) (db : Db) : option Match.t :=
  find (fun m => Nat.eqb (Match._id m) i) (matches db).

Definition insert_message (match_id sender_id : Id) (content type : string)
    (now : Z) : Handler Id :=
  fun db =>
    let i := fresh_id (map Message._id (messages db)) in
    ({| users := users db;
        swipes := swipes db;
        matches := matches db;
        messages := messages db
                    ++ [Message.mk i match_id sender_id content type false now];
        notifications := notifications db |}, Ok i).

Definition insert_notification (user_id : Id) (type : string)
    (related_id : option Id) (title message : string) (now : Z)
  : Handler Id :=
  fun db =>
    let i := fresh_id (map Notification._id (notifications db)) in
    ({| users := users db;
        swipes := swipes db;
        matches := matches db;
        messages := messages db;
        notifications := notifications db
                         ++ [Notification.mk i user_id type related_id title
                                             message false now] |}, Ok i).

(** [db.patch] on the messages table. *)
Definition patch_message (i : Id) (f : Message.t -> Message.t)
  : Handler unit :=
  fun db =>
    if existsb (fun m => Nat.eqb (Message._id m) i) (messages db) then
      ({| users := users db;
          swipes := swipes db;
          matches := matches db;
          messages := map (fun m => if Nat.eqb (Message._id m) i
                                    then f m else m) (messages db);
          notifications := notifications db |}, Ok tt)
    else (db, Err DocumentNotFound).

(** The patch [{ is_read: true }]. *)
Definition set_read (m : Message.t) : Message.t :=
  Message.mk (Message._id m) (Message.match_id m) (Message.sender_id m)
             (Message.content m) (Message.message_type m) true
             (Message.sent_at m).

(** [content.length > 50 ? content.substring(0, 50) + "..." : content] *)
Definition preview (content : string) : string :=
  if Nat.ltb 50 (String.length content)
  then (String.substring 0 50 content ++ "...")%string
  else content.

Definition sendMessage_handler (now : Z) (match_id sender_id : Id)
    (content : string) (message_type : option string) : Handler Id :=
  let message_type :=
    match message_type with Some t => t | None => "text"%string end in
  match_ <- read (get_match match_id) ;;
  match match_ with
  | None => throw Unauthorized
  | Some m =>
      if negb (Nat.eqb (Match.user1_id m) sender_id)
         && negb (Nat.eqb (Match.user2_id m) sender_id)
      then throw Unauthorized
      else if negb (Match.is_active m) then throw InactiveMatch
      else
        messageId <- insert_message match_id sender_id content message_type
                                    now ;;
        let recipientId :=
          if Nat.eqb (Match.user1_id m) sender_id
          then Match.user2_id m else Match.user1_id m in
        insert_notification recipientId "new_message" (Some messageId)
                            "New Message" (preview content) now ;;;
        ret messageId
  end.

Definition sendMessage (now : Z) (match_id sender_id : Id)
    (content : string) (message_type : option string) : Handler Id :=
  mutation (sendMessage_handler now match_id sender_id content message_type).

Definition markMessageAsRead (message_id : Id) : Handler unit :=
  mutation (patch_message message_id set_read).

(** [for (const x of l) { await body(x) }] *)
Fixpoint for_each {A : Type} (l : list A) (body : A -> Handler unit)
  : Handler unit :=
  match l with
  | [] => ret tt
  | x :: r => body x ;;; for_each r body
  end.

Definition markConversationAsRead_handler (match_id user_id : Id)
  : Handler unit :=
  match_ <- read (get_match match_id) ;;
  match match_ with
  | None => ret tt
  | Some m =>
      let otherUserId :=
        if Nat.eqb (Match.user1_id m) user_id
        then Match.user2_id m else Match.user1_id m in
      unreadMessages <- read
        (fun db =>
           filter (fun msg => negb (Message.is_read msg)
                              && Nat.eqb (Message.sender_id msg) otherUserId)
             (filter (fun msg => Nat.eqb (Message.match_id msg) match_id)
                     (messages db))) ;;
      for_each unreadMessages
        (fun message => patch_message (Message._id message) set_read)
  end.

Definition markConversationAsRead (match_id user_id : Id) : Handler unit :=
  mutation (markConversationAsRead_handler match_id user_id).

Local Close Scope handler_scope.

(* ===================================================================== *)
(** ** convex/queries/discovery.ts                                        *)
(* ===================================================================== *)

Local Open Scope Z_scope.

Definition calculateAge (now birthDateTimestamp : Z) : Z :=
  let age := JS.getFullYear now - JS.getFullYear birthDateTimestamp in
  let monthDiff := JS.getMonth now - JS.getMonth birthDateTimestamp in
  if (monthDiff <? 0)
     || ((monthDiff =? 0) && (JS.getDate now <? JS.getDate birthDateTimestamp))
  then age - 1
  else age.

(** An entry of [filteredUsers]: the user document with its distance. *)
Record Candidate : Type := { user : User.t; distance : JS.number }.

(** An entry of the feed. *)
Record FeedEntry : Type := {
  user_id : Id;
  first_name : option string;
  age : option Z;
  bio : option string;
  distance_km : JS.number;
  photos : list string
}.

(** JavaScript truth of an optional number: undefined and 0 are false. *)
Definition truthy (x : option Z) : bool :=
  match x with
  | Some v => negb (v =? 0)
  | None => false
  end.

Definition isSome {A : Type} (x : option A) : bool :=
  match x with Some _ => true | None => false end.

Definition orElse {A : Type} (x : option A) (d : A) : A :=
  match x with Some v => v | None => d end.

Definition option_string_eqb (x : option string) (s : string) : bool :=
  match x with Some v => String.eqb v s | None => false end.

Section Discovery.

(** [calculateDistance] is the haversine formula in floating point
    ([Math.sin], [Math.cos], [Math.sqrt], [Math.atan2]); its value enters
    as a parameter.  The value is a finite double or NaN: for points that
    are nearly antipodal the rounding makes [a] exceed 1, and
    [Math.sqrt(1-a)] is NaN.  What is proved of the feed is proved for
    every function of this type, the formula of the code among them. *)
Variable calculateDistance : Location -> Location -> JS.number.

(** The distance of [user.location!] from the requester's location. The
    candidates all have a location: [potentialUsers] keeps no other. *)
Definition distance_of (here : Location) (u : User.t) : JS.number :=
  match User.location u with
  | Some there => calculateDistance here there
  | None => JS.finite 0
  end.

Definition potentialUsers (now : Z) (currentUser : User.t)
    (ageMin ageMax : Z) (db : Db) : list User.t :=
  let minBirthDate := now - ageMax * 365 * 24 * 60 * 60 * 1000 in
  let maxBirthDate := now - ageMin * 365 * 24 * 60 * 60 * 1000 in
  filter
    (fun u =>
       match User.birth_date u with
       | Some b => (minBirthDate <? b) && (b <? maxBirthDate)
       | None => false
       end
       && negb (Nat.eqb (User._id u) (User._id currentUser))
       && isSome (User.location u))
    (users db).

(** The predicate of [potentialUsers.filter(user => ...)]. *)
Definition accepts (here : Location) (maxDistance : Q) (showMe : string)
    (u : User.t) : bool :=
  if JS.gt (distance_of here u) maxDistance then false
  else if negb (String.eqb showMe "everyone") then
    let userGender := option_map JS.toLowerCase (User.gender u) in
    let showPreference := JS.toLowerCase showMe in
    if String.eqb showPreference "men"
       && negb (option_string_eqb userGender "male") then false
    else if String.eqb showPreference "women"
            && negb (option_string_eqb userGender "female") then false
    else true
  else true.

Definition filteredUsers (here : Location) (maxDistance : Q)
    (showMe : string) (potential : list User.t) : list Candidate :=
  JS.sort (fun a b => JS.compare_value (JS.sub (distance a) (distance b)))
    (map (fun u => {| user := u; distance := distance_of here u |})
         (filter (accepts here maxDistance showMe) potential)).

Definition swipedIds (currentUser : User.t) (db : Db) : list Id :=
  map Swipe.swiped_id
      (filter (fun s => Nat.eqb (Swipe.swiper_id s) (User._id currentUser))
              (swipes db)).

Definition unswipedUsers (swiped : list Id) (l : list Candidate)
  : list Candidate :=
  filter (fun u => negb (existsb (Nat.eqb (User._id (user u))) swiped)) l.

Definition feedEntry (now : Z) (c : Candidate) : FeedEntry :=
  {| user_id := User._id (user c);
     first_name := User.first_name (user c);
     age := if truthy (User.birth_date (user c))
            then option_map (calculateAge now) (User.birth_date (user c))
            else None;
     bio := User.bio (user c);
     distance_km :=
       JS.lift (fun d => (inject_Z (JS.Math_round (d * 10)) / 10)%Q)
               (distance c);
     photos := [] |}.

(** The candidates of the requester before pagination: the value of the
    local [unswipedUsers] of the handler. *)
Definition candidates (now : Z) (currentUser : User.t) (here : Location)
    (db : Db) : list Candidate :=
  let maxDistance := orElse (User.max_distance currentUser) 50%Q in
  let ageMin := orElse (User.age_min currentUser) 18 in
  let ageMax := orElse (User.age_max currentUser) 100 in
  let showMe := orElse (User.show_me currentUser) "everyone"%string in
  unswipedUsers (swipedIds currentUser db)
    (filteredUsers here maxDistance showMe
       (potentialUsers now currentUser ageMin ageMax db)).

(** [identity] is the phone number of [auth.getUserIdentity()], when the
    caller is authenticated. *)
Definition getDiscoveryFeed (now : Z) (identity : option string)
    (limit offset : option Z) : Query (list FeedEntry) :=
  fun db =>
    let limit := orElse limit 20 in
    let offset := orElse offset 0 in
    match identity with
    | None => Err NotAuthenticated
    | Some phone =>
        match unique (filter (fun u => String.eqb (User.phone_number u) phone)
                             (users db)) with
        | Err e => Err e
        | Ok None => Err UserNotFound
        | Ok (Some currentUser) =>
            match User.location currentUser with
            | Some here =>
                if truthy (User.birth_date currentUser) then
                  Ok (map (feedEntry now)
                          (JS.slice (candidates now currentUser here db)
                                    offset (offset + limit)))
                else Ok []
            | None => Ok []
            end
        end
    end.

End Discovery.

Local Close Scope Z_scope.

(* ===================================================================== *)
(** ** convex/queries/matches.ts, convex/queries/messages.ts              *)
(* ===================================================================== *)

(** The user of [auth.getUserIdentity()]: the document of the phone number
    of the identity, null when there is none. *)
Definition currentUserOf (phone : string) (db : Db) : Result (option User.t) :=
  unique (filter (fun u => String.eqb (User.phone_number u) phone) (users db)).

(** [currentUser?._id !== id]: true for a null user. *)
Definition is_not (currentUser : option User.t) (id : Id) : bool :=
  match currentUser with
  | Some u => negb (Nat.eqb (User._id u) id)
  | None => true
  end.

(** The error "Unauthorized access to match" is [Unauthorized] here, as is
    "Unauthorized access to conversation". *)
Definition getMatchById (identity : option string) (match_id : Id)
  : Query (option Match.t) :=
  fun db =>
    match identity with
    | None => Err NotAuthenticated
    | Some phone =>
        match get_match match_id db with
        | None => Ok None
        | Some m =>
            match currentUserOf phone db with
            | Err e => Err e
            | Ok currentUser =>
                if is_not currentUser (Match.user1_id m)
                   && is_not currentUser (Match.user2_id m)
                then Err Unauthorized
                else Ok (Some m)
            end
        end
    end.

(** An entry of [getConversationMessages]. *)
Record MessageView : Type := {
  view_message_id : Id;
  view_sender_id : Id;
  view_content : string;
  view_message_type : string;
  view_sent_at : Z;
  view_is_read : bool
}.

Definition messageView (msg : Message.t) : MessageView :=
  {| view_message_id := Message._id msg;
     view_sender_id := Message.sender_id msg;
     view_content := Message.content msg;
     view_message_type := Message.message_type msg;
     view_sent_at := Message.sent_at msg;
     view_is_read := Message.is_read msg |}.

(** The index [by_match] of the messages table, in the order of creation. *)
Definition by_match (match_id : Id) (l : list Message.t) : list Message.t :=
  filter (fun msg => Nat.eqb (Message.match_id msg) match_id) l.

(** [limit] is the argument of [.take], a natural number; [before] is a
    time stamp, and [if (before)] skips the filter for 0 as for undefined.
    The handler computes the unread messages of the other user and does
    nothing with them. *)
Definition getConversationMessages (identity : option string) (match_id : Id)
    (limit : option nat) (before : option Z) : Query (list MessageView) :=
  fun db =>
    let limit := orElse limit 50 in
    match identity with
    | None => Err NotAuthenticated
    | Some phone =>
        match currentUserOf phone db with
        | Err e => Err e
        | Ok currentUser =>
            match get_match match_id db with
            | None => Err Unauthorized
            | Some m =>
                if is_not currentUser (Match.user1_id m)
                   && is_not currentUser (Match.user2_id m)
                then Err Unauthorized
                else
                  let messageQuery := by_match match_id (messages db) in
                  let messageQuery :=
                    if truthy before
                    then filter (fun msg =>
                                   (Message.sent_at msg <? orElse before 0)%Z)
                                messageQuery
                    else messageQuery in
                  let messages := firstn limit (rev messageQuery) in
                  Ok (map messageView (rev messages))
            end
        end
    end.

(** The range that the handler passes for the index [by_unread]:
    [q => q.and(q.eq("match_id", matchId), q.eq("is_read", false))]. *)
Definition by_unread_range (matchId : Id) : IndexRange Message.t :=
  q_and (q_eq (fun msg => Nat.eqb (Message.match_id msg) matchId))
        (q_eq (fun msg => negb (Message.is_read msg))).

(** The unread messages of one match that the user did not send: the query
    on the index [by_unread], filtered on the sender. *)
Definition unreadFor (currentUser : User.t) (matchId : Id)
    (l : list Message.t) : Result (list Message.t) :=
  and_then (withIndex (by_unread_range matchId) l)
    (filter (fun msg => negb (Nat.eqb (Message.sender_id msg)
                                      (User._id currentUser)))).

(** [Promise.all]: the values of the promises, or the error of one that
    rejects. *)
Fixpoint all {A : Type} (l : list (Result A)) : Result (list A) :=
  match l with
  | [] => Ok []
  | Ok a :: r =>
      match all r with
      | Ok values => Ok (a :: values)
      | Err e => Err e
      end
  | Err e :: _ => Err e
  end.

(** The identifiers of the active matches of the user, as user 1 and then
    as user 2. *)
Definition activeMatchIds (currentUser : User.t) (db : Db) : list Id :=
  let matches1 :=
    filter Match.is_active
      (filter (fun m => Nat.eqb (Match.user1_id m) (User._id currentUser))
              (matches db)) in
  let matches2 :=
    filter Match.is_active
      (filter (fun m => Nat.eqb (Match.user2_id m) (User._id currentUser))
              (matches db)) in
  map Match._id (matches1 ++ matches2).

Definition getUnreadMessageCount (identity : option string) : Query nat :=
  fun db =>
    match identity with
    | None => Ok 0
    | Some phone =>
        match currentUserOf phone db with
        | Err e => Err e
        | Ok None => Ok 0
        | Ok (Some currentUser) =>
            let matchIds := activeMatchIds currentUser db in
            if Nat.eqb (List.length matchIds) 0 then Ok 0
            else
              match all (map (fun matchId =>
                                and_then (unreadFor currentUser matchId
                                                    (messages db))
                                         (@List.length Message.t))
                             matchIds) with
              | Err e => Err e
              | Ok unreadCounts =>
                  Ok (fold_left (fun sum count => sum + count)
                                unreadCounts 0)
              end
        end
    end.

(* ===================================================================== *)
(** ** convex/mutations/auth.ts, profile.ts, subscriptions.ts             *)
(* ===================================================================== *)

(** The mutations of these files each read and write one table; they are
    written on that table.  A mutation that throws leaves the table as it
    was. *)
Definition TableMutation (Doc A : Type) : Type :=
  list Doc -> list Doc * Result A.

(** [db.patch(id, ...)] and [db.delete(id)] on a table whose documents
    have the identifier [key].  [patch_doc] is the patch of fields that the
    schema declares; [patch_validated] has the schema and the fields of the
    value that is patched in, with [f] the update of the declared ones. *)
Definition patch_doc {Doc : Type} (key : Doc -> Id) (i : Id)
    (f : Doc -> Doc) : TableMutation Doc unit :=
  fun table =>
    if existsb (fun d => Nat.eqb (key d) i) table
    then (map (fun d => if Nat.eqb (key d) i then f d else d) table, Ok tt)
    else (table, Err DocumentNotFound).

Definition patch_validated {Doc : Type} (key : Doc -> Id)
    (schema fields : list string) (i : Id) (f : Doc -> Doc)
  : TableMutation Doc unit :=
  fun table =>
    if existsb (fun d => Nat.eqb (key d) i) table
    then if declared schema fields
         then (map (fun d => if Nat.eqb (key d) i then f d else d) table,
               Ok tt)
         else (table, Err SchemaValidation)
    else (table, Err DocumentNotFound).

Definition delete_doc {Doc : Type} (key : Doc -> Id) (i : Id)
  : TableMutation Doc unit :=
  fun table =>
    if existsb (fun d => Nat.eqb (key d) i) table
    then (filter (fun d => negb (Nat.eqb (key d) i)) table, Ok tt)
    else (table, Err DocumentNotFound).

(** A document of the users table with all the fields of the schema;
    [User.t] is its part that the queries above read. *)
Module Account.
Record t : Type := mk {
  _id : Id;
  phone_number : string;
  otp_hash : option string;
  otp_expires_at : option Z;
  is_verified : bool;
  last_login : option Z;
  first_name : option string;
  last_name : option string;
  birth_date : option Z;
  gender : option string;
  bio : option string;
  location : option Location;
  location_name : option string;
  max_distance : option Q;
  age_min : option Z;
  age_max : option Z;
  show_me : option string;
  created_at : Z;
  updated_at : Z
}.
End Account.

Definition profileOf (a : Account.t) : User.t :=
  User.mk (Account._id a) (Account.phone_number a) (Account.first_name a)
          (Account.birth_date a) (Account.gender a) (Account.bio a)
          (Account.location a) (Account.max_distance a) (Account.age_min a)
          (Account.age_max a) (Account.show_me a).

(** The index [by_phone] of the users table. *)
Definition by_phone (phone : string) (table : list Account.t)
  : list Account.t :=
  filter (fun a => String.eqb (Account.phone_number a) phone) table.

Record CreateUserResult : Type := { created_user_id : Id; existed : bool }.

Definition createUser (now : Z) (phone_number : string)
  : TableMutation Account.t CreateUserResult :=
  fun table =>
    match unique (by_phone phone_number table) with
    | Err e => (table, Err e)
    | Ok (Some existingUser) =>
        (table, Ok {| created_user_id := Account._id existingUser;
                      existed := true |})
    | Ok None =>
        let userId := fresh_id (map Account._id table) in
        (table ++ [Account.mk userId phone_number None None false None
                              None None None None None None None
                              None None None None now now],
         Ok {| created_user_id := userId; existed := false |})
    end.

Definition setOTP (now : Z) (user_id : Id) (otp_hash : string)
    (expires_at : Z) : TableMutation Account.t unit :=
  patch_doc Account._id user_id
    (fun a =>
       Account.mk (Account._id a) (Account.phone_number a) (Some otp_hash)
         (Some expires_at) (Account.is_verified a) (Account.last_login a)
         (Account.first_name a) (Account.last_name a) (Account.birth_date a)
         (Account.gender a) (Account.bio a) (Account.location a)
         (Account.location_name a) (Account.max_distance a)
         (Account.age_min a) (Account.age_max a) (Account.show_me a)
         (Account.created_at a) now).

Definition verifyUser (now : Z) (user_id : Id)
  : TableMutation Account.t unit :=
  patch_doc Account._id user_id
    (fun a =>
       Account.mk (Account._id a) (Account.phone_number a)
         (Account.otp_hash a) (Account.otp_expires_at a) true (Some now)
         (Account.first_name a) (Account.last_name a) (Account.birth_date a)
         (Account.gender a) (Account.bio a) (Account.location a)
         (Account.location_name a) (Account.max_distance a)
         (Account.age_min a) (Account.age_max a) (Account.show_me a)
         (Account.created_at a) now).

Definition createInitialProfile (now : Z) (user_id : Id)
    (first_name : string) (birth_date : Z) (gender : string)
  : TableMutation Account.t unit :=
  patch_doc Account._id user_id
    (fun a =>
       Account.mk (Account._id a) (Account.phone_number a)
         (Account.otp_hash a) (Account.otp_expires_at a)
         (Account.is_verified a) (Account.last_login a)
         (Some first_name) (Account.last_name a) (Some birth_date)
         (Some gender) (Account.bio a) (Account.location a)
         (Account.location_name a) (Some 50%Q) (Some 18%Z) (Some 100%Z)
         (Some "everyone"%string) (Account.created_at a) now).

(** The argument [updates]: every field is optional. *)
Record ProfileUpdates : Type := {
  upd_first_name : option string;
  upd_last_name : option string;
  upd_birth_date : option Z;
  upd_gender : option string;
  upd_bio : option string;
  upd_location : option Location;
  upd_location_name : option string;
  upd_max_distance : option Q;
  upd_age_min : option Z;
  upd_age_max : option Z;
  upd_show_me : option string
}.

(** A field of [{ ...updates }] in the patch: the new value when the
    update has one, the old field otherwise. *)
Definition updated {A : Type} (new old : option A) : option A :=
  match new with
  | Some v => Some v
  | None => old
  end.

Definition updateUserProfile (now : Z) (user_id : Id)
    (updates : ProfileUpdates) : TableMutation Account.t unit :=
  patch_doc Account._id user_id
    (fun a =>
       Account.mk (Account._id a) (Account.phone_number a)
         (Account.otp_hash a) (Account.otp_expires_at a)
         (Account.is_verified a) (Account.last_login a)
         (updated (upd_first_name updates) (Account.first_name a))
         (updated (upd_last_name updates) (Account.last_name a))
         (updated (upd_birth_date updates) (Account.birth_date a))
         (updated (upd_gender updates) (Account.gender a))
         (updated (upd_bio updates) (Account.bio a))
         (updated (upd_location updates) (Account.location a))
         (updated (upd_location_name updates) (Account.location_name a))
         (updated (upd_max_distance updates) (Account.max_distance a))
         (updated (upd_age_min updates) (Account.age_min a))
         (updated (upd_age_max updates) (Account.age_max a))
         (updated (upd_show_me updates) (Account.show_me a))
         (Account.created_at a) now).

Module Photo.
Record t : Type := mk {
  _id : Id;
  user_id : Id;
  photo_url : string;
  is_primary : bool;
  order_index : nat;
  created_at : Z
}.
End Photo.

Definition photos_of (user_id : Id) (table : list Photo.t) : list Photo.t :=
  filter (fun p => Nat.eqb (Photo.user_id p) user_id) table.

(** The primary photos of the user. *)
Definition primary_of (user_id : Id) (table : list Photo.t)
  : list Photo.t :=
  filter (fun p => Nat.eqb (Photo.user_id p) user_id && Photo.is_primary p)
         table.

(** The range that the handler passes for the index [by_primary]:
    [q => q.and(q.eq("user_id", user_id), q.eq("is_primary", true))]. *)
Definition by_primary_range (user_id : Id) : IndexRange Photo.t :=
  q_and (q_eq (fun p => Nat.eqb (Photo.user_id p) user_id))
        (q_eq (fun p => Photo.is_primary p)).

Definition unset_primary (p : Photo.t) : Photo.t :=
  Photo.mk (Photo._id p) (Photo.user_id p) (Photo.photo_url p) false
           (Photo.order_index p) (Photo.created_at p).

Definition addProfilePhoto (now : Z) (user_id : Id) (photo_url : string)
    (is_primary : bool) : TableMutation Photo.t Id :=
  fun table =>
    let unset : Result (list Photo.t) :=
      if is_primary then
        match withIndex (by_primary_range user_id) table with
        | Err e => Err e
        | Ok found =>
            match unique found with
            | Err e => Err e
            | Ok (Some currentPrimary) =>
                Ok (fst (patch_doc Photo._id (Photo._id currentPrimary)
                                   unset_primary table))
            | Ok None => Ok table
            end
        end
      else Ok table in
    match unset with
    | Err e => (table, Err e)
    | Ok table1 =>
        let existingPhotos := photos_of user_id table1 in
        let orderIndex := List.length existingPhotos in
        let photoId := fresh_id (map Photo._id table1) in
        (table1 ++ [Photo.mk photoId user_id photo_url is_primary orderIndex
                             now],
         Ok photoId)
    end.

Definition removeProfilePhoto (photo_id : Id) : TableMutation Photo.t unit :=
  delete_doc Photo._id photo_id.

Module Interest.
Record t : Type := mk {
  _id : Id;
  user_id : Id;
  interest_name : string;
  category : option string;
  created_at : Z
}.
End Interest.

(** The interests of the user with the name: the index [by_user] filtered
    on [interest_name]. *)
Definition interest_of (user_id : Id) (interest_name : string)
    (table : list Interest.t) : list Interest.t :=
  filter (fun x => String.eqb (Interest.interest_name x) interest_name)
         (filter (fun x => Nat.eqb (Interest.user_id x) user_id) table).

Definition addUserInterest (now : Z) (user_id : Id) (interest_name : string)
    (category : option string) : TableMutation Interest.t Id :=
  fun table =>
    match unique (interest_of user_id interest_name table) with
    | Err e => (table, Err e)
    | Ok (Some existingInterest) => (table, Ok (Interest._id existingInterest))
    | Ok None =>
        let interestId := fresh_id (map Interest._id table) in
        (table ++ [Interest.mk interestId user_id interest_name category now],
         Ok interestId)
    end.

Definition removeUserInterest (user_id : Id) (interest_name : string)
  : TableMutation Interest.t unit :=
  fun table =>
    match unique (interest_of user_id interest_name table) with
    | Err e => (table, Err e)
    | Ok (Some interest) => delete_doc Interest._id (Interest._id interest) table
    | Ok None => (table, Ok tt)
    end.

Module Subscription.
Record t : Type := mk {
  _id : Id;
  user_id : Id;
  plan_type : string;
  status : string;
  started_at : Z;
  expires_at : option Z;
  created_at : Z
}.
End Subscription.

(** The fields of the subscriptions table in the schema. *)
Definition subscriptions_schema : list string :=
  ["user_id"; "plan_type"; "status"; "started_at"; "expires_at";
   "created_at"]%string.

(** The patch [{ status: .., updated_at: Date.now() }]: its fields, and the
    update of the one the schema declares. *)
Definition status_patch : list string := ["status"; "updated_at"]%string.

Definition set_status (status : string) (x : Subscription.t)
  : Subscription.t :=
  Subscription.mk (Subscription._id x) (Subscription.user_id x)
    (Subscription.plan_type x) status (Subscription.started_at x)
    (Subscription.expires_at x) (Subscription.created_at x).

(** The active subscriptions of the user. *)
Definition active_of (user_id : Id) (table : list Subscription.t)
  : list Subscription.t :=
  filter (fun x => String.eqb (Subscription.status x) "active")
         (filter (fun x => Nat.eqb (Subscription.user_id x) user_id) table).

(** [for (const sub of subs) await db.patch(sub._id, ...)]; a patch that
    throws ends the loop. *)
Fixpoint patch_each {Doc : Type} (key : Doc -> Id)
    (schema fields : list string) (f : Doc -> Doc)
    (docs : list Doc) (table : list Doc) : list Doc * Result unit :=
  match docs with
  | [] => (table, Ok tt)
  | d :: rest =>
      match patch_validated key schema fields (key d) f table with
      | (table1, Ok _) => patch_each key schema fields f rest table1
      | (table1, Err e) => (table1, Err e)
      end
  end.

Definition createSubscription (now : Z) (user_id : Id) (plan_type : string)
    (duration_days : Z) : TableMutation Subscription.t Id :=
  fun table =>
    let existingSubs := active_of user_id table in
    match patch_each Subscription._id subscriptions_schema status_patch
                     (set_status "cancelled") existingSubs table with
    | (_, Err e) => (table, Err e)
    | (table1, Ok _) =>
        let expiresAt := (now + duration_days * 24 * 60 * 60 * 1000)%Z in
        let subscriptionId := fresh_id (map Subscription._id table1) in
        (table1 ++ [Subscription.mk subscriptionId user_id plan_type "active"
                                    now (Some expiresAt) now],
         Ok subscriptionId)
    end.

Definition cancelSubscription (now : Z) (subscription_id : Id)
  : TableMutation Subscription.t unit :=
  patch_validated Subscription._id subscriptions_schema status_patch
    subscription_id (set_status "cancelled").

Definition expireSubscription (now : Z) (subscription_id : Id)
  : TableMutation Subscription.t unit :=
  patch_validated Subscription._id subscriptions_schema status_patch
    subscription_id (set_status "expired").

(** The subscription mutations, as calls, and the table after a call and
    after a sequence of calls. *)
Inductive SubscriptionCall : Type :=
| CreateSubscription (now : Z) (user_id : Id) (plan_type : string)
                     (duration_days : Z)
| CancelSubscription (now : Z) (subscription_id : Id)
| ExpireSubscription (now : Z) (subscription_id : Id).

Definition subscription_exec (c : SubscriptionCall)
    (table : list Subscription.t) : list Subscription.t :=
  match c with
  | CreateSubscription now u p d => fst (createSubscription now u p d table)
  | CancelSubscription now i => fst (cancelSubscription now i table)
  | ExpireSubscription now i => fst (expireSubscription now i table)
  end.

Definition subscription_run (calls : list SubscriptionCall)
    (table : list Subscription.t) : list Subscription.t :=
  fold_left (fun t c => subscription_exec c t) calls table.

(** The photo mutations, as calls, and the table after a call and after a
    sequence of calls. *)
Inductive PhotoCall : Type :=
| AddProfilePhoto (now : Z) (user_id : Id) (photo_url : string)
                  (is_primary : bool)
| RemoveProfilePhoto (photo_id : Id).

Definition photo_exec (c : PhotoCall) (table : list Photo.t)
  : list Photo.t :=
  match c with
  | AddProfilePhoto now u url p => fst (addProfilePhoto now u url p table)
  | RemoveProfilePhoto i => fst (removeProfilePhoto i table)
  end.

Definition photo_run (calls : list PhotoCall) (table : list Photo.t)
  : list Photo.t :=
  fold_left (fun t c => photo_exec c t) calls table.

(** At most one interest of a name per user. *)
Definition interests_unique (table : list Interest.t) : Prop :=
  forall (u : Id) (n : string),
    (List.length (interest_of u n table) <= 1)%nat.

(** At most one primary photo per user. *)
Definition one_primary (table : list Photo.t) : Prop :=
  forall u : Id, (List.length (primary_of u table) <= 1)%nat.

(** The photos of every user are numbered 0, 1, 2, ... in the order of the
    table. *)
Definition numbered (table : list Photo.t) : Prop :=
  forall u : Id,
    map Photo.order_index (photos_of u table)
    = seq 0 (List.length (photos_of u table)).

(** Phone numbers and identifiers of the users table are distinct. *)
Definition accounts_distinct (table : list Account.t) : Prop :=
  NoDup (map Account.phone_number table) /\ NoDup (map Account._id table).

(** The mutations of the users table, as calls. *)
Inductive AccountCall : Type :=
| CreateUser (now : Z) (phone_number : string)
| SetOTP (now : Z) (user_id : Id) (otp_hash : string) (expires_at : Z)
| VerifyUser (now : Z) (user_id : Id)
| CreateInitialProfile (now : Z) (user_id : Id) (first_name : string)
                       (birth_date : Z) (gender : string)
| UpdateUserProfile (now : Z) (user_id : Id) (updates : ProfileUpdates).

Definition account_exec (c : AccountCall) (table : list Account.t)
  : list Account.t :=
  match c with
  | CreateUser now p => fst (createUser now p table)
  | SetOTP now i h e => fst (setOTP now i h e table)
  | VerifyUser now i => fst (verifyUser now i table)
  | CreateInitialProfile now i f b g =>
      fst (createInitialProfile now i f b g table)
  | UpdateUserProfile now i u => fst (updateUserProfile now i u table)
  end.

Definition account_run (calls : list AccountCall) (table : list Account.t)
  : list Account.t :=
  fold_left (fun t c => account_exec c t) calls table.

(** The update that sets the location and nothing else. *)
Definition location_update (here : Location) : ProfileUpdates :=
  {| upd_first_name := None; upd_last_name := None; upd_birth_date := None;
     upd_gender := None; upd_bio := None; upd_location := Some here;
     upd_location_name := None; upd_max_distance := None;
     upd_age_min := None; upd_age_max := None; upd_show_me := None |}.

(** A distance to run the feed on examples: a flat grid of 111 km per
    degree.  Like the haversine formula it is 0 at identical coordinates,
    and equal for candidates at the same coordinates. *)
Definition gridDistance (a b : Location) : JS.number :=
  JS.finite (111 * (Qabs (latitude a - latitude b)
                    + Qabs (longitude a - longitude b)))%Q.

(** A distance that is NaN between a point of the northern and a point of
    the southern hemisphere, and the grid distance otherwise. *)
Definition brokenDistance (a b : Location) : JS.number :=
  if (Qle_bool 0 (latitude a) && negb (Qle_bool 0 (latitude b)))%bool
  then JS.NaN else gridDistance a b.

(** The state after a call: what the handler returned as database. *)
Definition after {A : Type} (r : Db * Result A) : Db := fst r.

(** There is a swipe [a -> b] with action "like". *)
Definition likes (l : list Swipe.t) (a b : Id) : Prop :=
  exists s, In s l /\ Swipe.swiper_id s = a /\ Swipe.swiped_id s = b
            /\ Swipe.action s = like.

(** The match [m] is between [a] and [b], in either order. *)
Definition between (a b : Id) (m : Match.t) : bool :=
  (Nat.eqb (Match.user1_id m) a && Nat.eqb (Match.user2_id m) b)
  || (Nat.eqb (Match.user1_id m) b && Nat.eqb (Match.user2_id m) a).

(** The invariant of the matches of the data model: two distinct
    participants, at most one match for an unordered pair of users, and
    both directed "like" swipes behind every match. *)
Record MatchInvariant (db : Db) : Prop := {
  distinct_participants :
    forall m, In m (matches db) -> Match.user1_id m <> Match.user2_id m;
  one_match_per_pair :
    forall a b : Id,
      (List.length (filter (between a b) (matches db)) <= 1)%nat;
  mutual_likes :
    forall m, In m (matches db) ->
      likes (swipes db) (Match.user1_id m) (Match.user2_id m)
      /\ likes (swipes db) (Match.user2_id m) (Match.user1_id m)
}.

(** The mutations of the core, as calls. *)
Inductive Call : Type :=
| RecordSwipe (now : Z) (swiper_id swiped_id : Id) (action : Action)
| UnmatchUsers (now : Z) (match_id : Id)
| SendMessage (now : Z) (match_id sender_id : Id) (content : string)
              (message_type : option string)
| MarkMessageAsRead (message_id : Id)
| MarkConversationAsRead (match_id user_id : Id).

(** The database after a call. *)
Definition exec (c : Call) (db : Db) : Db :=
  match c with
  | RecordSwipe now a b act => after (recordSwipe now a b act db)
  | UnmatchUsers now i => after (unmatchUsers now i db)
  | SendMessage now i s c t => after (sendMessage now i s c t db)
  | MarkMessageAsRead i => after (markMessageAsRead i db)
  | MarkConversationAsRead i u => after (markConversationAsRead i u db)
  end.

(** The database after a sequence of calls, the first call first. *)
Definition run (calls : list Call) (db : Db) : Db :=
  fold_left (fun d c => exec c d) calls db.

(** The sender is one of the two participants of the match. *)
Definition participant (u : Id) (m : Match.t) : Prop :=
  Match.user1_id m = u \/ Match.user2_id m = u.

(** A conversation to run the message mutations on: users 1 and 2 are
    matched (match 7), and user 1 has sent one message, still unread. *)
Definition chat_db (active : bool) : Db :=
  {| users := [];
     swipes := [Swipe.mk 1 1 2 like 10; Swipe.mk 2 2 1 like 20];
     matches := [Match.mk 7 2 1 20 active 20];
     messages := [Message.mk 4 7 1 "hi" "text" false 30];
     notifications := [] |}.

(** The candidates of the requester in the order of the users table, that
    is [candidates] without the sort. *)
Definition eligible (calculateDistance : Location -> Location -> JS.number)
    (now : Z) (currentUser : User.t) (here : Location) (db : Db)
  : list Candidate :=
  unswipedUsers (swipedIds currentUser db)
    (map (fun u => {| user := u;
                      distance := distance_of calculateDistance here u |})
       (filter (accepts calculateDistance here
                  (orElse (User.max_distance currentUser) 50%Q)
                  (orElse (User.show_me currentUser) "everyone"%string))
          (potentialUsers now currentUser
             (orElse (User.age_min currentUser) 18%Z)
             (orElse (User.age_max currentUser) 100%Z) db))).

(** The requester of a call: the one user of the phone number, with a
    location and a birth date. *)
Definition requester_of (phone : string) (db : Db) (R : User.t)
    (here : Location) : Prop :=
  unique (filter (fun u => String.eqb (User.phone_number u) phone)
                 (users db)) = Ok (Some R)
  /\ User.location R = Some here
  /\ truthy (User.birth_date R) = true.

(** Ascending distance. *)
Definition closer (a b : Candidate) : Prop := JS.num_le (distance a) (distance b).

(** The candidates at distance [d]. *)
Definition at_distance (d : Q) (l : list Candidate) : list Candidate :=
  filter (fun c => JS.num_is (distance c) d) l.

(** Ascending distance, and ascending identifier at equal distance. *)
Definition closer_then_id (a b : Candidate) : Prop :=
  JS.num_lt (distance a) (distance b)
  \/ (JS.num_eq (distance a) (distance b)
      /\ (User._id (user a) <= User._id (user b))%nat).

(** Ascending distance, and descending identifier at equal distance. *)
Definition closer_then_id_desc (a b : Candidate) : Prop :=
  JS.num_lt (distance a) (distance b)
  \/ (JS.num_eq (distance a) (distance b)
      /\ (User._id (user b) <= User._id (user a))%nat).

(** The distance of a candidate as the comparator of the sort reads it. *)
Definition number_key (c : Candidate) : Q := JS.compare_value (distance c).

(** The distance of every user of the table from [here] is a number. *)
Definition distances_are_numbers
    (calculateDistance : Location -> Location -> JS.number)
    (here : Location) (db : Db) : Prop :=
  forall (u : User.t) (there : Location),
    In u (users db) -> User.location u = Some there ->
    calculateDistance here there <> JS.NaN.

(** *** Databases to run the feed on

    The requester is user 1, born on 1996-05-01, at 40 N 74 W, looking for
    anyone aged 25 to 35 within 50 km.  [today] is 2026-11-02, 00:00 UTC. *)
Definition today : Z := 1793577600000.

Definition home : Location := {| latitude := 40; longitude := -74 |}.

Definition north (hundredths : Z) : Location :=
  {| latitude := 40 + (hundredths # 100); longitude := -74 |}.

Definition requester : User.t :=
  User.mk 1 "+100" (Some "Ann"%string) (Some 830908800000%Z)
          (Some "female"%string) None (Some home)
          (Some 50%Q) (Some 25%Z) (Some 35%Z) (Some "everyone"%string).

Definition person (i : Id) (phone : string) (birth : Z) (l : Location)
  : User.t :=
  User.mk i phone (Some "Sam"%string) (Some birth) (Some "male"%string) None
          (Some l) None None None None.

Definition db_of (people : list User.t) : Db :=
  {| users := requester :: people; swipes := []; matches := [];
     messages := []; notifications := [] |}.

(** Three candidates at the same place, users 5, 3 and 7 in the order of
    the table. *)
Definition tie_db : Db :=
  db_of [person 5 "+105" 789696000000 (north 5);
         person 3 "+103" 824774400000 (north 5);
         person 7 "+107" 859680000000 (north 5)].

(** Five candidates, each further north than the one before. *)
Definition five_db : Db :=
  db_of [person 11 "+111" 789696000000 (north 1);
         person 12 "+112" 824774400000 (north 2);
         person 13 "+113" 859680000000 (north 3);
         person 14 "+114" 891734400000 (north 4);
         person 15 "+115" 929404800000 (north 5)].

(** One candidate, born on 2001-11-07: 25 times 365 days and one day
    before [today], five days short of 25 years. *)
Definition young_db : Db :=
  db_of [person 21 "+121" 1005091200000 home].

(** A requester without location. *)
Definition nowhere_db : Db :=
  {| users := [User.mk 1 "+100" (Some "Ann"%string) (Some 830908800000%Z)
                       None None None None None None None;
               person 5 "+105" 789696000000 home];
     swipes := []; matches := []; messages := []; notifications := [] |}.

(** The candidates of the requester in [tie_db]. *)
Definition tie_candidates : list Candidate :=
  candidates gridDistance today requester home tie_db.

(** The page of the requester over a database of the examples. *)
Definition page_of (db : Db) (limit offset : Z) : Result (list FeedEntry) :=
  getDiscoveryFeed gridDistance today (Some "+100"%string) (Some limit)
                   (Some offset) db.

(** The leap days before the year [y] (a year that begins in March). *)
Definition leaps (y : Z) : Z := (y / 4 - y / 100 + y / 400)%Z.

(** [calculateAge] on the two dates (year, month, day): the difference of
    the years, less one before the birthday. *)
Definition age_between (birth today : Z * Z * Z) : Z :=
  let '(y1, m1, d1) := birth in
  let '(y2, m2, d2) := today in
  if ((m2 - 1 - (m1 - 1) <? 0)
      || ((m2 - 1 - (m1 - 1) =? 0) && (d2 <? d1)))%Z
  then (y2 - y1 - 1)%Z else (y2 - y1)%Z.

(** *** Examples for the feed

    The nearest candidate of [tie_db], user 5, and the entry of the feed
    for them: aged 31, 5.55 km away. *)
Definition tie_nearest : Candidate :=
  {| user := person 5 "+105" 789696000000 (north 5);
     distance := gridDistance home (north 5) |}.

Definition tie_first : FeedEntry := feedEntry today tie_nearest.

Definition tie_page : list FeedEntry := map (feedEntry today) tie_candidates.

(** The entry for the one candidate of [young_db]. *)
Definition young_first : FeedEntry :=
  feedEntry today
    {| user := person 21 "+121" 1005091200000 home;
       distance := gridDistance home home |}.

(** The two nearest candidates of [five_db]. *)
Definition five_page : list FeedEntry :=
  map (feedEntry today)
      (firstn 2 (candidates gridDistance today requester home five_db)).

(** *** Examples for the conversations

    Users 1 ("+100") and 2 ("+102") are matched (match 7), and user 1 has
    sent one message, still unread. *)
Definition talk_match : Match.t := Match.mk 7 2 1 20 true 20.

Definition talk_db : Db :=
  {| users := [requester; person 2 "+102" 789696000000 home];
     swipes := [Swipe.mk 1 1 2 like 10; Swipe.mk 2 2 1 like 20];
     matches := [talk_match];
     messages := [Message.mk 4 7 1 "hi" "text" false 30];
     notifications := [] |}.

(** User 2 has liked user 1: the one swipe of the database. *)
Definition liked_db : Db :=
  {| users := []; swipes := [Swipe.mk 1 2 1 like 5]; matches := [];
     messages := []; notifications := [] |}.

(** [tie_db] after the requester has passed on user 3. *)
Definition tie_swiped_db : Db :=
  {| users := users tie_db; swipes := [Swipe.mk 1 1 3 pass 5];
     matches := []; messages := []; notifications := [] |}.

(** One candidate, on the southern hemisphere. *)
Definition south_db : Db :=
  db_of [person 31 "+131" 789696000000
                {| latitude := -8; longitude := 1 |}].

(** The unread messages of a match that the user did not send, as the
    query on the index [by_unread] is meant. *)
Definition unreadOf (user_id matchId : Id) (l : list Message.t)
  : list Message.t :=
  filter (fun msg => negb (Nat.eqb (Message.sender_id msg) user_id))
    (filter (fun msg => Nat.eqb (Message.match_id msg) matchId
                        && negb (Message.is_read msg)) l).

(** *** Examples for the tables of the profile

    A database with the profiles of a users table and nothing else. *)
Definition accounts_db (table : list Account.t) : Db :=
  {| users := map profileOf table; swipes := []; matches := [];
     messages := []; notifications := [] |}.

(** Two sign-ups, a third with the phone number of the first, and the steps
    of the first user up to a profile with a location. *)
Definition signups : list AccountCall :=
  [CreateUser 10 "+100"; CreateUser 20 "+105"; CreateUser 30 "+100";
   SetOTP 40 1 "5f4d" 340; VerifyUser 50 1;
   CreateInitialProfile 60 1 "Ann" 830908800000 "female";
   UpdateUserProfile 70 1 (location_update home)].

(** Three photos of user 1, the first one primary, and one of user 2. *)
Definition album : list Photo.t :=
  [Photo.mk 1 1 "a.jpg" true 0 10; Photo.mk 2 1 "b.jpg" false 1 20;
   Photo.mk 3 2 "c.jpg" true 0 30; Photo.mk 4 1 "d.jpg" false 2 40].

(** Calls of the photo mutations: two photos of user 1, the second asked
    to be primary, one removed, and another added. *)
Definition album_calls : list PhotoCall :=
  [AddProfilePhoto 10 1 "a.jpg" false; AddProfilePhoto 20 1 "b.jpg" true;
   RemoveProfilePhoto 1; AddProfilePhoto 30 1 "c.jpg" false].

Definition hobbies : list Interest.t :=
  [Interest.mk 1 1 "chess" None 10;
   Interest.mk 2 2 "chess" (Some "games"%string) 20].

Definition plans : list Subscription.t :=
  [Subscription.mk 1 1 "basic" "active" 10 (Some 2592000010%Z) 10;
   Subscription.mk 2 2 "gold" "cancelled" 20 (Some 2592000020%Z) 20].

(** Calls of the subscription mutations on [plans]: user 1, who has an
    active subscription, and user 2, who has none. *)
Definition plan_calls : list SubscriptionCall :=
  [CancelSubscription 60 1; CreateSubscription 70 1 "premium" 30;
   ExpireSubscription 80 1; CreateSubscription 90 2 "gold" 30].

(* ===================================================================== *)
(** ** Facts about the data layer                                         *)
(* ===================================================================== *)

(** The run-time functions on a few inputs. *)
Example civil_epoch : JS.civil 0 = (1970, 1, 1)%Z.
Proof. reflexivity. Qed.

Example civil_leap_day : JS.civil 19782 = (2024, 2, 29)%Z.
Proof. reflexivity. Qed.

Example civil_before_epoch : JS.civil (-1) = (1969, 12, 31)%Z.
Proof. reflexivity. Qed.

Example getMonth_from_zero : JS.getMonth today = 10%Z.
Proof. reflexivity. Qed.

Example calculateAge_on_birthday :
  calculateAge today (today - 9131 * JS.ms_per_day) = 25%Z.
Proof. reflexivity. Qed.

Example calculateAge_day_before_birthday :
  calculateAge today (today - 9130 * JS.ms_per_day) = 24%Z.
Proof. reflexivity. Qed.

Example slice_from_the_end : JS.slice [1; 2; 3; 4; 5] (-2) 5 = [4; 5].
Proof. reflexivity. Qed.

Example slice_past_the_end : JS.slice [1; 2; 3] 5 7 = [].
Proof. reflexivity. Qed.

Example sort_keeps_ties :
  JS.sort (fun a b : Q * nat => (fst a - fst b)%Q)
          [(2%Q, 1); (1%Q, 2); (2%Q, 3); (1%Q, 4)]
  = [(1%Q, 2); (1%Q, 4); (2%Q, 1); (2%Q, 3)].
Proof. reflexivity. Qed.

Example toLowerCase_mixed : JS.toLowerCase "WoMen" = "women"%string.
Proof. reflexivity. Qed.

Example Math_round_half_up :
  JS.Math_round (555 # 10) = 56%Z /\ JS.Math_round (- (1 # 2)) = 0%Z.
Proof. split; reflexivity. Qed.

Example unique_of_two : unique [1; 2] = Err NotUnique.
Proof. reflexivity. Qed.

Lemma fresh_id_fresh (ids : list Id) : ~ In (fresh_id ids) ids.
Proof.
  unfold fresh_id. intros Hin.
  assert (Hall : Forall (fun k => (k <= list_max ids)%nat) ids)
    by (apply list_max_le; lia).
  rewrite Forall_forall in Hall. apply Hall in Hin. lia.
Qed.

Lemma fresh_differs {Doc : Type} (key : Doc -> Id) (table : list Doc)
    (d : Doc) :
  In d table -> key d <> fresh_id (map key table).
Proof.
  intros Hd E. apply (fresh_id_fresh (map key table)). rewrite <- E.
  apply in_map, Hd.
Qed.

Lemma by_pair_In (a b : Id) (l : list Swipe.t) (s : Swipe.t) :
  In s (by_pair a b l)
  <-> In s l /\ Swipe.swiper_id s = a /\ Swipe.swiped_id s = b.
Proof.
  unfold by_pair. rewrite filter_In, andb_true_iff, !Nat.eqb_eq. tauto.
Qed.

(* ===================================================================== *)
(** ** Swipes and matches                                                 *)
(* ===================================================================== *)

(** The query on the index [by_pair] throws whatever the table holds: its
    range uses the builder twice. *)
Lemma by_pair_query_throws (a b : Id) (l : list Swipe.t) :
  withIndex (by_pair_range a b) l = Err IndexRangeMisuse.
Proof. reflexivity. Qed.

(** [recordSwipe] throws at its first statement, the look-up of the
    existing swipe, for every pair of users, both actions and every
    database; nothing is written. *)
Lemma recordSwipe_throws (now : Z) (a b : Id) (act : Action) (db : Db) :
  recordSwipe now a b act db = (db, Err IndexRangeMisuse).
Proof.
  unfold recordSwipe, mutation, recordSwipe_handler, bind, read_unique.
  rewrite by_pair_query_throws. reflexivity.
Qed.

(** C1, the failing case.  User 2 has liked user 1, and user 1 has not
    swiped on user 2.  [recordSwipe(1, 2, "like")] does not record the
    swipe, creates no match and returns no result: it throws at the query
    on the index [by_pair], whose range is written
    [q.and(q.eq(..), q.eq(..))], and the database is what it was.  The same
    holds for the action "pass" and for a pair without any swipe. *)
Theorem recordSwipe_reciprocated_like_throws :
  by_pair 1 2 (swipes liked_db) = []
  /\ by_pair 2 1 (swipes liked_db) = [Swipe.mk 1 2 1 like 5]
  /\ recordSwipe 9 1 2 like liked_db = (liked_db, Err IndexRangeMisuse)
  /\ swipes (after (recordSwipe 9 1 2 like liked_db)) = swipes liked_db
  /\ matches (after (recordSwipe 9 1 2 like liked_db)) = [].
Proof.
  split; [reflexivity|]. split; [reflexivity|].
  rewrite recordSwipe_throws. repeat split.
Qed.

(** C2, the failing case.  User 2 has swiped on user 1 already.  A second
    [recordSwipe(2, 1, action)] fails, for both actions, and leaves the
    database as it was, but not with the conflict "Swipe already recorded":
    the handler throws at the query on the index [by_pair], before it has
    looked at the existing swipe. *)
Theorem recordSwipe_duplicate_not_a_conflict :
  by_pair 2 1 (swipes liked_db) = [Swipe.mk 1 2 1 like 5]
  /\ recordSwipe 9 2 1 like liked_db = (liked_db, Err IndexRangeMisuse)
  /\ recordSwipe 9 2 1 pass liked_db = (liked_db, Err IndexRangeMisuse)
  /\ snd (recordSwipe 9 2 1 like liked_db) <> Err SwipeAlreadyRecorded
  /\ snd (recordSwipe 9 2 1 pass liked_db) <> Err SwipeAlreadyRecorded.
Proof.
  split; [reflexivity|].
  rewrite !recordSwipe_throws. repeat split; discriminate.
Qed.

(** A mutation commits what its handler wrote, or nothing. *)
Lemma mutation_after {A : Type} (h : Handler A) (db : Db) :
  after (mutation h db) = db \/ after (mutation h db) = after (h db).
Proof.
  unfold mutation, after. destruct (h db) as [db' [a|e]]; simpl; auto.
Qed.

(** [unmatchUsers] is rejected: by the schema when the match exists, for
    the field [updated_at], and for the missing document otherwise. *)
Lemma unmatchUsers_throws (now : Z) (i : Id) (db : Db) :
  unmatchUsers now i db
  = (db, Err (if existsb (fun m => Nat.eqb (Match._id m) i) (matches db)
              then SchemaValidation else DocumentNotFound)).
Proof.
  unfold unmatchUsers, mutation, patch_match.
  destruct (existsb _ (matches db)); reflexivity.
Qed.

Lemma patch_message_keeps (i : Id) (f : Message.t -> Message.t) (db : Db) :
  users (after (patch_message i f db)) = users db
  /\ swipes (after (patch_message i f db)) = swipes db
  /\ matches (after (patch_message i f db)) = matches db.
Proof.
  unfold patch_message, after. destruct (existsb _ _); simpl; auto.
Qed.

Lemma for_each_patch_keeps (l : list Message.t) (db : Db) :
  users (after (for_each l (fun message =>
            patch_message (Message._id message) set_read) db)) = users db
  /\ swipes (after (for_each l (fun message =>
            patch_message (Message._id message) set_read) db)) = swipes db
  /\ matches (after (for_each l (fun message =>
            patch_message (Message._id message) set_read) db)) = matches db.
Proof.
  revert db. induction l as [|x r IH]; intros db; simpl; [auto|].
  unfold bind.
  destruct (patch_message_keeps (Message._id x) set_read db)
    as (Eu & Es & Em).
  unfold after in *.
  destruct (patch_message (Message._id x) set_read db) as [db1 [[]|e]];
    simpl in *; [|auto].
  destruct (IH db1) as (Eu' & Es' & Em'). repeat split; congruence.
Qed.

(** No call of the core writes the users, the swipes or the matches. *)
Lemma exec_keeps_swipes_and_matches (c : Call) (db : Db) :
  users (exec c db) = users db
  /\ swipes (exec c db) = swipes db
  /\ matches (exec c db) = matches db.
Proof.
  destruct c as [now a b act | now i | now i s c t | i | i u]; cbn [exec].
  - rewrite recordSwipe_throws. auto.
  - rewrite unmatchUsers_throws. auto.
  - destruct (mutation_after
                (sendMessage_handler now i s c t) db) as [E|E];
      unfold sendMessage; rewrite E; [auto|].
    unfold sendMessage_handler, bind, read, after.
    destruct (get_match i db) as [m|]; simpl; [|auto].
    destruct (negb _ && negb _); simpl; [auto|].
    destruct (negb (Match.is_active m)); simpl; auto.
  - destruct (mutation_after (patch_message i set_read) db) as [E|E];
      unfold markMessageAsRead; rewrite E; [auto|].
    apply patch_message_keeps.
  - destruct (mutation_after (markConversationAsRead_handler i u) db)
      as [E|E]; unfold markConversationAsRead; rewrite E; [auto|].
    unfold markConversationAsRead_handler, bind, read.
    destruct (get_match i db) as [m|]; simpl; [|auto].
    apply for_each_patch_keeps.
Qed.

(** C4.  Every call of the core keeps the invariant of the matches: two
    distinct participants, at most one match for an unordered pair of
    users, both "like" swipes behind every match.  No call writes the swipes
    or the matches: [recordSwipe] throws before its inserts, [unmatchUsers]
    is rejected by the schema, and the message mutations write messages and
    notifications. *)
Theorem match_invariant_preserved (c : Call) (db : Db) :
  MatchInvariant db -> MatchInvariant (exec c db).
Proof.
  intros [Hd H1 Hl].
  destruct (exec_keeps_swipes_and_matches c db) as (_ & Es & Em).
  constructor.
  - rewrite Em. exact Hd.
  - rewrite Em. exact H1.
  - rewrite Em, Es. exact Hl.
Qed.

Lemma chat_db_invariant (active : bool) : MatchInvariant (chat_db active).
Proof.
  constructor.
  - intros m [<-|[]]. discriminate.
  - intros a b. unfold chat_db, between. cbn [matches filter Match.user1_id
      Match.user2_id]. destruct (_ || _); simpl; lia.
  - intros m [<-|[]]. split.
    + exists (Swipe.mk 2 2 1 like 20). simpl. auto.
    + exists (Swipe.mk 1 1 2 like 10). simpl. auto.
Qed.

Lemma match_invariant_preserved_witness :
  MatchInvariant (exec (RecordSwipe 30 1 1 like) (chat_db true))
  /\ MatchInvariant (exec (UnmatchUsers 40 7) (chat_db true))
  /\ MatchInvariant (exec (SendMessage 50 7 2 "hello" None) (chat_db true)).
Proof.
  split; [|split].
  - exact (@match_invariant_preserved (RecordSwipe 30 1 1 like)
             (chat_db true) (chat_db_invariant true)).
  - exact (@match_invariant_preserved (UnmatchUsers 40 7)
             (chat_db true) (chat_db_invariant true)).
  - exact (@match_invariant_preserved (SendMessage 50 7 2 "hello" None)
             (chat_db true) (chat_db_invariant true)).
Defined.

(* ===================================================================== *)
(** ** Messages                                                           *)
(* ===================================================================== *)

Lemma not_participant_test (u : Id) (m : Match.t) :
  negb (Nat.eqb (Match.user1_id m) u) && negb (Nat.eqb (Match.user2_id m) u)
  = true <-> ~ participant u m.
Proof.
  unfold participant.
  rewrite andb_true_iff, !negb_true_iff, !Nat.eqb_neq. tauto.
Qed.

(** C9.  [sendMessage] fails with Unauthorized when the sender is neither
    participant of the match (or the match does not exist); it fails with
    the distinct error InactiveMatch when the sender is a participant and
    the match is not active; in both cases nothing is written.  A message is
    created exactly when the sender is a participant of an active match: the
    call then succeeds and appends that one message, unread. *)
Theorem sendMessage_gatekeeper (now : Z) (match_id sender_id : Id)
    (content : string) (message_type : option string) (db : Db) :
  let call := sendMessage now match_id sender_id content message_type db in
  ((forall m, get_match match_id db = Some m -> ~ participant sender_id m) ->
   call = (db, Err Unauthorized))
  /\ (forall m, get_match match_id db = Some m -> participant sender_id m ->
      Match.is_active m = false -> call = (db, Err InactiveMatch))
  /\ (forall m, get_match match_id db = Some m -> participant sender_id m ->
      Match.is_active m = true ->
      exists i, snd call = Ok i
        /\ messages (after call)
           = messages db
             ++ [Message.mk i match_id sender_id content
                   (orElse message_type "text"%string) false now])
  /\ (messages (after call) <> messages db ->
      exists m, get_match match_id db = Some m /\ participant sender_id m
                /\ Match.is_active m = true).
Proof.
  intros call. subst call.
  unfold sendMessage, mutation, sendMessage_handler, bind, read, after.
  destruct (get_match match_id db) as [m|] eqn:Hget; simpl.
  - destruct (negb (Nat.eqb (Match.user1_id m) sender_id)
              && negb (Nat.eqb (Match.user2_id m) sender_id)) eqn:Hp; simpl.
    + apply not_participant_test in Hp. repeat split.
      * intros m' E Hm'. inversion E; subst. contradiction.
      * intros m' E Hm'. inversion E; subst. contradiction.
      * intros Hneq. contradiction.
    + assert (Hpart : participant sender_id m).
      { unfold participant.
        apply andb_false_iff in Hp.
        destruct Hp as [Hp|Hp]; apply negb_false_iff, Nat.eqb_eq in Hp; auto. }
      destruct (Match.is_active m) eqn:Hact; simpl; repeat split.
      * intros Hno. exfalso. exact (Hno m eq_refl Hpart).
      * intros m' E _ Hina. inversion E; subst. congruence.
      * intros m' E _ _. eexists. split; reflexivity.
      * intros _. exists m. auto.
      * intros Hno. exfalso. exact (Hno m eq_refl Hpart).
      * intros m' E _ Hina. inversion E; subst. congruence.
      * intros Hneq. contradiction.
  - repeat split.
    + intros m E. discriminate.
    + intros m E. discriminate.
    + intros Hneq. contradiction.
Qed.

Lemma sendMessage_gatekeeper_witness :
  sendMessage 40 7 3 "hello" None (chat_db true)
  = (chat_db true, Err Unauthorized)
  /\ sendMessage 40 7 1 "hello" None (chat_db false)
     = (chat_db false, Err InactiveMatch)
  /\ messages (after (sendMessage 40 7 2 "hello" None (chat_db true)))
     = [Message.mk 4 7 1 "hi" "text" false 30;
        Message.mk 5 7 2 "hello" "text" false 40].
Proof.
  split; [|split].
  - apply (sendMessage_gatekeeper 40 7 3 "hello" None (chat_db true)).
    intros m E. inversion E; subst. unfold participant. simpl.
    intros [H|H]; discriminate.
  - apply (sendMessage_gatekeeper 40 7 1 "hello" None (chat_db false))
      with (m := Match.mk 7 2 1 20 false 20).
    + reflexivity.
    + right. reflexivity.
    + reflexivity.
  - destruct (sendMessage_gatekeeper 40 7 2 "hello" None (chat_db true))
      as (_ & _ & Hok & _).
    destruct (Hok (Match.mk 7 2 1 20 true 20) eq_refl
                  (or_introl eq_refl) eq_refl) as (i & Hi & Hm).
    rewrite Hm. simpl in Hi. inversion Hi. reflexivity.
Defined.

(** C10.  [markMessageAsRead(message_id)] succeeds on every message there
    is, whoever sent it, whatever its match and whether or not it was read:
    its only argument is the message identifier, so no caller is checked.
    The messages table afterwards is the old one with [is_read] set in the
    documents of that identifier; every other field of the message, every
    other message and every other table are as before. *)
Theorem markMessageAsRead_unconditional (message_id : Id) (db : Db)
    (m : Message.t) :
  In m (messages db) -> Message._id m = message_id ->
  markMessageAsRead message_id db
  = ({| users := users db;
        swipes := swipes db;
        matches := matches db;
        messages := map (fun x => if Nat.eqb (Message._id x) message_id
                                  then set_read x else x) (messages db);
        notifications := notifications db |}, Ok tt)
  /\ In (Message.mk (Message._id m) (Message.match_id m) (Message.sender_id m)
           (Message.content m) (Message.message_type m) true
           (Message.sent_at m))
        (messages (after (markMessageAsRead message_id db))).
Proof.
  intros Hin Hid.
  assert (Hex : existsb (fun x => Nat.eqb (Message._id x) message_id)
                        (messages db) = true).
  { apply existsb_exists. exists m. split; [exact Hin|].
    apply Nat.eqb_eq. exact Hid. }
  assert (Hcall : markMessageAsRead message_id db
    = ({| users := users db; swipes := swipes db; matches := matches db;
          messages := map (fun x => if Nat.eqb (Message._id x) message_id
                                    then set_read x else x) (messages db);
          notifications := notifications db |}, Ok tt)).
  { unfold markMessageAsRead, mutation, patch_message. rewrite Hex.
    reflexivity. }
  split; [exact Hcall|].
  rewrite Hcall. unfold after. simpl.
  apply in_map_iff. exists m. split; [|exact Hin].
  apply Nat.eqb_eq in Hid. rewrite Hid. reflexivity.
Qed.

(** The sender marks their own unread message as read with
    [markMessageAsRead]; [markConversationAsRead], called by the same user,
    leaves it unread. *)
Lemma markMessageAsRead_unconditional_witness :
  In (Message.mk 4 7 1 "hi" "text" true 30)
     (messages (after (markMessageAsRead 4 (chat_db true))))
  /\ messages (after (markConversationAsRead 7 1 (chat_db true)))
     = [Message.mk 4 7 1 "hi" "text" false 30].
Proof.
  split; [|reflexivity].
  apply (@markMessageAsRead_unconditional 4 (chat_db true)
           (Message.mk 4 7 1 "hi" "text" false 30)).
  - left. reflexivity.
  - reflexivity.
Defined.

(* ===================================================================== *)
(** ** Array.prototype.sort and Array.prototype.slice                     *)
(* ===================================================================== *)

Section SortAny.

Variable A : Type.
Variable cmp : A -> A -> Q.

(** Whatever the comparator, the sort rearranges the array. *)
Lemma sort_insert_rearranges (x : A) (l : list A) :
  Permutation (JS.sort_insert cmp x l) (x :: l).
Proof.
  induction l as [|y r IH]; simpl; [apply Permutation_refl|].
  destruct (Qle_bool (cmp x y) 0); [apply Permutation_refl|].
  eapply perm_trans; [apply perm_skip, IH | apply perm_swap].
Qed.

Lemma sort_rearranges (l : list A) : Permutation (JS.sort cmp l) l.
Proof.
  induction l as [|x r IH]; simpl; [constructor|].
  eapply perm_trans; [apply sort_insert_rearranges | apply perm_skip, IH].
Qed.

Variable cmp' : A -> A -> Q.

Lemma sort_insert_agrees (x : A) (l : list A) :
  (forall y, In y l -> cmp x y = cmp' x y) ->
  JS.sort_insert cmp x l = JS.sort_insert cmp' x l.
Proof.
  induction l as [|y r IH]; intros H; [reflexivity|].
  cbn [JS.sort_insert]. rewrite (H y (or_introl eq_refl)).
  destruct (Qle_bool (cmp' x y) 0); [reflexivity|].
  f_equal. apply IH. intros z Hz. apply H. right. exact Hz.
Qed.

(** The sort reads the comparator on the elements of the array only. *)
Lemma sort_agrees (l : list A) :
  (forall x y, In x l -> In y l -> cmp x y = cmp' x y) ->
  JS.sort cmp l = JS.sort cmp' l.
Proof.
  induction l as [|x r IH]; intros H; [reflexivity|].
  cbn [JS.sort]. rewrite IH.
  - apply sort_insert_agrees. intros y Hy. apply H; [left; reflexivity|].
    right. rewrite <- IH in Hy.
    + exact (Permutation_in _ (sort_rearranges r) Hy).
    + intros a b Ha Hb. apply H; right; assumption.
  - intros a b Ha Hb. apply H; right; assumption.
Qed.

End SortAny.

Section SortByKey.

Variable A : Type.
Variable key : A -> Q.

Local Abbreviation cmp := (fun a b : A => (key a - key b)%Q).
Local Abbreviation le := (fun a b : A => (key a <= key b)%Q).

Lemma cmp_le (x y : A) :
  Qle_bool (key x - key y) 0 = true <-> (key x <= key y)%Q.
Proof.
  rewrite Qle_bool_iff. split; intros H; lra.
Qed.

Lemma sort_insert_perm (x : A) (l : list A) :
  Permutation (JS.sort_insert cmp x l) (x :: l).
Proof.
  induction l as [|y r IH]; simpl; [apply Permutation_refl|].
  destruct (Qle_bool (key x - key y) 0); [apply Permutation_refl|].
  eapply perm_trans; [apply perm_skip, IH | apply perm_swap].
Qed.

Lemma sort_insert_sorted (x : A) (l : list A) :
  StronglySorted le l -> StronglySorted le (JS.sort_insert cmp x l).
Proof.
  induction 1 as [|y r Hs IH Hall]; simpl.
  - constructor; constructor.
  - destruct (Qle_bool (key x - key y) 0) eqn:E.
    + apply cmp_le in E. constructor; [constructor; assumption|].
      constructor; [exact E|].
      rewrite Forall_forall in *. intros z Hz. specialize (Hall z Hz).
      simpl in *. lra.
    + constructor; [exact IH|].
      assert (Hyx : (key y <= key x)%Q).
      { destruct (Qlt_le_dec (key x) (key y)) as [Hlt|Hge]; [|exact Hge].
        exfalso. assert (Hle : (key x <= key y)%Q) by lra.
        apply cmp_le in Hle. congruence. }
      rewrite Forall_forall in *. intros z Hz.
      apply (Permutation_in _ (sort_insert_perm x r)) in Hz.
      destruct Hz as [<-|Hz]; auto.
Qed.

(** The result of the sort is in ascending order of the key. *)
Lemma sort_sorted (l : list A) : StronglySorted le (JS.sort cmp l).
Proof.
  induction l as [|x r IH]; simpl; [constructor|].
  apply sort_insert_sorted, IH.
Qed.

Lemma sort_insert_at (d : Q) (x : A) (l : list A) :
  filter (fun c => Qeq_bool (key c) d) (JS.sort_insert cmp x l)
  = filter (fun c => Qeq_bool (key c) d) (x :: l).
Proof.
  induction l as [|y r IH]; [reflexivity|].
  cbn [JS.sort_insert]. destruct (Qle_bool (key x - key y) 0) eqn:E;
    [reflexivity|].
  cbn [filter] in *. rewrite IH.
  destruct (Qeq_bool (key x) d) eqn:Ex;
    destruct (Qeq_bool (key y) d) eqn:Ey; try reflexivity.
  exfalso. apply Qeq_bool_iff in Ex, Ey.
  assert (Hle : (key x <= key y)%Q) by lra.
  apply cmp_le in Hle. congruence.
Qed.

(** The sort is stable: the elements of one key keep their order. *)
Lemma sort_stable (d : Q) (l : list A) :
  filter (fun c => Qeq_bool (key c) d) (JS.sort cmp l)
  = filter (fun c => Qeq_bool (key c) d) l.
Proof.
  induction l as [|x r IH]; [reflexivity|].
  cbn [JS.sort]. rewrite sort_insert_at. cbn [filter]. rewrite IH.
  reflexivity.
Qed.

End SortByKey.

Lemma StronglySorted_filter {A : Type} (R : A -> A -> Prop) (p : A -> bool)
    (l : list A) :
  StronglySorted R l -> StronglySorted R (filter p l).
Proof.
  induction 1 as [|x r Hs IH Hall]; simpl; [constructor|].
  destruct (p x); [|exact IH].
  constructor; [exact IH|].
  rewrite Forall_forall in *. intros y Hy. apply filter_In in Hy.
  apply Hall, Hy.
Qed.

Lemma StronglySorted_skipn {A : Type} (R : A -> A -> Prop) (n : nat)
    (l : list A) :
  StronglySorted R l -> StronglySorted R (skipn n l).
Proof.
  revert l. induction n as [|n IH]; intros l Hs; [exact Hs|].
  destruct l as [|x r]; [constructor|]. simpl. apply IH.
  inversion Hs; assumption.
Qed.

Lemma firstn_In {A : Type} (n : nat) (l : list A) (x : A) :
  In x (firstn n l) -> In x l.
Proof.
  revert l. induction n as [|n IH]; intros [|y r]; simpl; try tauto.
  intros [E|H]; [left; exact E | right; apply IH, H].
Qed.

Lemma StronglySorted_firstn {A : Type} (R : A -> A -> Prop) (n : nat)
    (l : list A) :
  StronglySorted R l -> StronglySorted R (firstn n l).
Proof.
  revert l. induction n as [|n IH]; intros l Hs; [constructor|].
  destruct l as [|x r]; [constructor|]. simpl.
  inversion Hs as [|? ? Hr Hall]; subst.
  constructor; [apply IH, Hr|].
  rewrite Forall_forall in *. intros y Hy. apply Hall.
  eapply firstn_In; eassumption.
Qed.

Lemma StronglySorted_map {A B : Type} (R : A -> A -> Prop)
    (R' : B -> B -> Prop) (f : A -> B) (l : list A) :
  (forall a b, R a b -> R' (f a) (f b)) ->
  StronglySorted R l -> StronglySorted R' (map f l).
Proof.
  intros Hf. induction 1 as [|x r Hs IH Hall]; simpl; constructor.
  - exact IH.
  - rewrite Forall_forall in *. intros y Hy. apply in_map_iff in Hy.
    destruct Hy as (z & <- & Hz). apply Hf, Hall, Hz.
Qed.

Lemma filter_comm {A : Type} (p q : A -> bool) (l : list A) :
  filter p (filter q l) = filter q (filter p l).
Proof.
  induction l as [|x r IH]; simpl; [reflexivity|].
  destruct (p x) eqn:Ep; destruct (q x) eqn:Eq; simpl;
    rewrite ?Ep, ?Eq, IH; reflexivity.
Qed.

(** Filtering a table keeps the keys of its documents distinct. *)
Lemma filter_keeps_distinct (Doc Key : Type) (keep : Doc -> bool)
    (key : Doc -> Key) (table : list Doc) (Hn : NoDup (map key table)) :
  NoDup (map key (filter keep table)).
Proof.
  induction table as [|x r IH]; simpl; [exact Hn|].
  inversion Hn as [|? ? Hx Hr]; subst.
  destruct (keep x); simpl; [|apply IH, Hr].
  constructor; [|apply IH, Hr].
  intros Hin. apply Hx. apply in_map_iff in Hin.
  destruct Hin as (y & E & Hy). apply filter_In in Hy.
  apply in_map_iff. exists y. tauto.
Qed.

Lemma NoDup_firstn {A : Type} (n : nat) (l : list A) :
  NoDup l -> NoDup (firstn n l).
Proof.
  intros Hn. rewrite <- (firstn_skipn n l) in Hn.
  exact (NoDup_app_remove_r _ _ Hn).
Qed.

Lemma NoDup_skipn {A : Type} (n : nat) (l : list A) :
  NoDup l -> NoDup (skipn n l).
Proof.
  intros Hn. rewrite <- (firstn_skipn n l) in Hn.
  exact (NoDup_app_remove_l _ _ Hn).
Qed.

Lemma firstn_firstn_skipn {A : Type} (a b : nat) (l : list A) :
  firstn a l ++ firstn b (skipn a l) = firstn (a + b) l.
Proof.
  revert l. induction a as [|a IH]; intros l; [reflexivity|].
  destruct l as [|x r]; simpl.
  - rewrite firstn_nil. reflexivity.
  - rewrite IH. reflexivity.
Qed.

(** [l.slice(offset, offset + limit)] for an offset and a limit that are not
    negative: [limit] elements from position [offset] on. *)
Lemma slice_page {A : Type} (l : list A) (offset limit : Z) :
  (0 <= offset)%Z -> (0 <= limit)%Z ->
  JS.slice l offset (offset + limit)
  = firstn (Z.to_nat limit) (skipn (Z.to_nat offset) l).
Proof.
  intros Ho Hl. unfold JS.slice, JS.rel_index.
  destruct (Z.ltb_spec offset 0) as [?|_]; [lia|].
  destruct (Z.ltb_spec (offset + limit) 0) as [?|_]; [lia|].
  destruct (Z.le_gt_cases (Z.of_nat (List.length l)) offset) as [Hbig|Hin].
  - rewrite Z.min_r by lia.
    rewrite !skipn_all2 by lia. rewrite !firstn_nil. reflexivity.
  - rewrite (Z.min_l offset) by lia.
    assert (Hlen : List.length (skipn (Z.to_nat offset) l)
                   = (List.length l - Z.to_nat offset)%nat)
      by apply length_skipn.
    destruct (Z.le_gt_cases (offset + limit) (Z.of_nat (List.length l)))
      as [Hfit|Hover].
    + rewrite Z.min_l by lia. f_equal. lia.
    + rewrite Z.min_r by lia.
      rewrite !firstn_all2 by lia. reflexivity.
Qed.

Lemma slice_beyond {A : Type} (l : list A) (offset stop : Z) :
  (Z.of_nat (List.length l) <= offset)%Z -> JS.slice l offset stop = [].
Proof.
  intros Hbig. unfold JS.slice, JS.rel_index.
  destruct (Z.ltb_spec offset 0) as [?|_]; [lia|].
  rewrite (Z.min_r offset (Z.of_nat (List.length l))) by lia.
  rewrite skipn_all2 by lia. apply firstn_nil.
Qed.

Lemma slice_sorted {A : Type} (R : A -> A -> Prop) (l : list A)
    (start stop : Z) :
  StronglySorted R l -> StronglySorted R (JS.slice l start stop).
Proof.
  intros Hs. unfold JS.slice.
  apply StronglySorted_firstn, StronglySorted_skipn, Hs.
Qed.

(* ===================================================================== *)
(** ** getDiscoveryFeed                                                   *)
(* ===================================================================== *)

Section Feed.

Variable calculateDistance : Location -> Location -> JS.number.

Local Abbreviation feed := (getDiscoveryFeed calculateDistance).

(** The page is the slice of the candidates. *)
Lemma getDiscoveryFeed_page (now : Z) (phone : string) (db : Db)
    (R : User.t) (here : Location) (limit offset : Z) :
  requester_of phone db R here ->
  feed now (Some phone) (Some limit) (Some offset) db
  = Ok (map (feedEntry now)
           (JS.slice (candidates calculateDistance now R here db)
                     offset (offset + limit))).
Proof.
  intros (Hu & Hloc & Hb). unfold feed, getDiscoveryFeed.
  rewrite Hu, Hloc, Hb. reflexivity.
Qed.

(** The users that pass the first filter are users of the table with a
    location, so that their distances are numbers when those of the table
    are. *)
Lemma potentialUsers_distances (now : Z) (R : User.t) (here : Location)
    (ageMin ageMax : Z) (db : Db) (u : User.t) :
  distances_are_numbers calculateDistance here db ->
  In u (potentialUsers now R ageMin ageMax db) ->
  distance_of calculateDistance here u <> JS.NaN.
Proof.
  intros Hnum Hu. unfold potentialUsers in Hu. apply filter_In in Hu.
  destruct Hu as [Hin Hu]. apply andb_true_iff in Hu. destruct Hu as [_ Hl].
  unfold distance_of. destruct (User.location u) as [there|] eqn:E;
    [|discriminate]. exact (Hnum u there Hin E).
Qed.

(** On distances that are numbers the comparator of the handler is the
    difference of the distances, and the sorted candidates have the
    distances they had. *)
Lemma filteredUsers_by_key (here : Location) (maxDistance : Q)
    (showMe : string) (potential : list User.t) :
  (forall u, In u potential ->
             distance_of calculateDistance here u <> JS.NaN) ->
  filteredUsers calculateDistance here maxDistance showMe potential
  = JS.sort (fun a b => (number_key a - number_key b)%Q)
      (map (fun u => {| user := u;
                        distance := distance_of calculateDistance here u |})
           (filter (accepts calculateDistance here maxDistance showMe)
                   potential))
  /\ Forall (fun c => distance c <> JS.NaN)
       (filteredUsers calculateDistance here maxDistance showMe potential).
Proof.
  intros Hnum.
  assert (Hin : forall c,
            In c (map (fun u => {| user := u;
                                   distance :=
                                     distance_of calculateDistance here u |})
                      (filter (accepts calculateDistance here maxDistance
                                       showMe) potential)) ->
            distance c <> JS.NaN).
  { intros c Hc. apply in_map_iff in Hc. destruct Hc as (u & <- & Hu).
    apply filter_In in Hu. cbn [distance]. apply Hnum. tauto. }
  split.
  - unfold filteredUsers. apply sort_agrees. intros x y Hx Hy.
    apply Hin in Hx. apply Hin in Hy. unfold number_key.
    destruct (distance x); [contradiction|].
    destruct (distance y); [contradiction|]. reflexivity.
  - apply Forall_forall. intros c Hc. apply Hin.
    unfold filteredUsers in Hc.
    exact (Permutation_in _ (sort_rearranges _ _) Hc).
Qed.

Lemma closer_by_key (a b : Candidate) :
  distance a <> JS.NaN -> distance b <> JS.NaN ->
  (number_key a <= number_key b)%Q -> closer a b.
Proof.
  unfold closer, number_key.
  destruct (distance a); [contradiction|].
  destruct (distance b); [contradiction|]. intros _ _ H. exact H.
Qed.

Lemma StronglySorted_among {A : Type} (R R' : A -> A -> Prop)
    (P : A -> Prop) (l : list A) :
  (forall a b, P a -> P b -> R a b -> R' a b) -> Forall P l ->
  StronglySorted R l -> StronglySorted R' l.
Proof.
  intros HR HP Hs. induction Hs as [|x r Hs IH Hall]; constructor.
  - apply IH. inversion HP; assumption.
  - inversion HP as [|? ? Hx Hr]; subst.
    rewrite Forall_forall in *. intros y Hy. apply HR; auto.
Qed.

Lemma candidates_sorted (now : Z) (R : User.t) (here : Location)
    (db : Db) :
  distances_are_numbers calculateDistance here db ->
  StronglySorted closer (candidates calculateDistance now R here db).
Proof.
  intros Hnum. unfold candidates, unswipedUsers.
  apply StronglySorted_filter.
  match goal with
  | |- StronglySorted _ (filteredUsers _ ?h ?m ?s ?p) =>
      destruct (@filteredUsers_by_key h m s p) as [E Hfin]
  end.
  { intros u Hu. eapply potentialUsers_distances; eassumption. }
  apply (@StronglySorted_among _
           (fun a b => (number_key a <= number_key b)%Q) closer
           (fun c => distance c <> JS.NaN)); [|exact Hfin|].
  - intros a b Ha Hb Hab. apply closer_by_key; assumption.
  - rewrite E. exact (sort_sorted number_key _).
Qed.

Lemma at_distance_by_key (d : Q) (l : list Candidate) :
  Forall (fun c => distance c <> JS.NaN) l ->
  at_distance d l = filter (fun c => Qeq_bool (number_key c) d) l.
Proof.
  intros H. unfold at_distance. apply filter_ext_in. intros c Hc.
  rewrite Forall_forall in H. specialize (H c Hc). unfold number_key.
  destruct (distance c); [contradiction|reflexivity].
Qed.

Lemma candidates_stable (now : Z) (R : User.t) (here : Location)
    (db : Db) (d : Q) :
  distances_are_numbers calculateDistance here db ->
  at_distance d (candidates calculateDistance now R here db)
  = at_distance d (eligible calculateDistance now R here db).
Proof.
  intros Hnum. unfold candidates, eligible, unswipedUsers.
  match goal with
  | |- context [filteredUsers _ ?h ?m ?s ?p] =>
      destruct (@filteredUsers_by_key h m s p) as [E Hfin]
  end.
  { intros u Hu. eapply potentialUsers_distances; eassumption. }
  assert (Hfin' : Forall (fun c => distance c <> JS.NaN)
            (map (fun u => {| user := u;
                              distance :=
                                distance_of calculateDistance here u |})
               (filter (accepts calculateDistance here
                          (orElse (User.max_distance R) 50%Q)
                          (orElse (User.show_me R) "everyone"%string))
                  (potentialUsers now R (orElse (User.age_min R) 18%Z)
                     (orElse (User.age_max R) 100%Z) db)))).
  { apply Forall_forall. intros c Hc. apply in_map_iff in Hc.
    destruct Hc as (u & <- & Hu). apply filter_In in Hu. cbn [distance].
    eapply potentialUsers_distances; [eassumption|apply Hu]. }
  rewrite !at_distance_by_key.
  - rewrite E, filter_comm, (sort_stable number_key), filter_comm.
    reflexivity.
  - apply Forall_forall. intros c Hc. apply filter_In in Hc.
    rewrite Forall_forall in Hfin'. apply Hfin', Hc.
  - apply Forall_forall. intros c Hc. apply filter_In in Hc.
    rewrite Forall_forall in Hfin. apply Hfin, Hc.
Qed.

Lemma candidates_NoDup (now : Z) (R : User.t) (here : Location)
    (db : Db) :
  NoDup (map User._id (users db)) ->
  NoDup (map (fun c => User._id (user c))
             (candidates calculateDistance now R here db)).
Proof.
  intros Hn. unfold candidates, unswipedUsers, filteredUsers.
  apply filter_keeps_distinct.
  eapply Permutation_NoDup;
    [apply Permutation_sym, Permutation_map, sort_rearranges|].
  rewrite map_map. simpl.
  apply filter_keeps_distinct. unfold potentialUsers.
  apply filter_keeps_distinct. exact Hn.
Qed.

End Feed.

Section FeedOrder.

Variable calculateDistance : Location -> Location -> JS.number.

(** C5.  For a requester whose profile has no location or no birth date,
    [getDiscoveryFeed] returns the empty list, for every limit and offset
    (given or left to their defaults), and throws nothing. *)
Theorem getDiscoveryFeed_incomplete_profile (now : Z) (phone : string)
    (db : Db) (R : User.t) (limit offset : option Z) :
  unique (filter (fun u => String.eqb (User.phone_number u) phone)
                 (users db)) = Ok (Some R) ->
  User.location R = None \/ User.birth_date R = None ->
  getDiscoveryFeed calculateDistance now (Some phone) limit offset db = Ok [].
Proof.
  intros Hu Hmiss. unfold getDiscoveryFeed. rewrite Hu.
  destruct Hmiss as [-> | Hb]; [reflexivity|].
  rewrite Hb. simpl. destruct (User.location R); reflexivity.
Qed.

Lemma distance_km_mono (now : Z) (a b : Candidate) :
  closer a b ->
  JS.num_le (distance_km (feedEntry now a)) (distance_km (feedEntry now b)).
Proof.
  unfold closer, feedEntry, JS.Math_round. cbn [distance_km].
  destruct (distance a) as [|x]; [contradiction|].
  destruct (distance b) as [|y]; [contradiction|].
  cbn [JS.lift JS.num_le]. intros Hab.
  unfold Qdiv. apply Qmult_le_compat_r; [|discriminate].
  rewrite <- Zle_Qle. apply Qfloor_resp_le. lra.
Qed.

(** C7, as the code has it.  The page is the slice of the candidates.  When
    the distance of every user of the table from the requester is a number
    (the haversine formula of the code gives NaN for points that are nearly
    antipodal, and a candidate at such a distance passes the distance
    filter and makes the comparator return NaN), the candidates, hence the
    page, are in ascending order of distance, and so are the rounded
    distances the page shows; candidates at one distance stand in the order
    in which the scan of the users table returns them (the sort is stable
    and has no second key).  The page is a function of the database, the
    time and the arguments, so that repeated calls on an unchanged database
    give the same page. *)
Theorem feed_sorted_by_distance_stable (now : Z) (phone : string) (db : Db)
    (R : User.t) (here : Location) (limit offset : Z) :
  requester_of phone db R here ->
  distances_are_numbers calculateDistance here db ->
  let all := candidates calculateDistance now R here db in
  let shown := JS.slice all offset (offset + limit) in
  getDiscoveryFeed calculateDistance now (Some phone) (Some limit)
                   (Some offset) db
  = Ok (map (feedEntry now) shown)
  /\ StronglySorted closer all
  /\ StronglySorted closer shown
  /\ StronglySorted JS.num_le (map distance_km (map (feedEntry now) shown))
  /\ (forall d : Q,
        at_distance d all
        = at_distance d (eligible calculateDistance now R here db)).
Proof.
  intros Hreq Hnum all shown.
  assert (Hall : StronglySorted closer all) by (apply candidates_sorted, Hnum).
  assert (Hshown : StronglySorted closer shown)
    by (apply slice_sorted, Hall).
  repeat split.
  - apply getDiscoveryFeed_page, Hreq.
  - exact Hall.
  - exact Hshown.
  - rewrite map_map.
    apply (StronglySorted_map (R:=closer)); [|exact Hshown].
    intros a b. apply distance_km_mono.
  - intros d. apply candidates_stable, Hnum.
Qed.

(** C8, as the code has it.  The page is the slice
    [candidates.slice(offset, offset + limit)] of the ordered candidates.
    For an offset and limits that are not negative, the page of [l1] from
    [offset] and the page of [l2] from [offset + l1] have no user in common,
    and one after the other they are the page of [l1 + l2] from [offset]
    (two pages of 2 make the page of 4, not of 5), which is the beginning of
    every longer page from [offset].  An offset at or beyond the number of
    candidates gives the empty page, no error. *)
Theorem feed_pagination (now : Z) (phone : string) (db : Db) (R : User.t)
    (here : Location) (offset l1 l2 : Z) :
  requester_of phone db R here ->
  NoDup (map User._id (users db)) ->
  (0 <= offset)%Z -> (0 <= l1)%Z -> (0 <= l2)%Z ->
  let all := candidates calculateDistance now R here db in
  let page limit offset :=
    getDiscoveryFeed calculateDistance now (Some phone) (Some limit)
                     (Some offset) db in
  (forall limit o : Z,
     page limit o = Ok (map (feedEntry now) (JS.slice all o (o + limit))))
  /\ (exists p1 p2 : list FeedEntry,
        page l1 offset = Ok p1
        /\ page l2 (offset + l1)%Z = Ok p2
        /\ page (l1 + l2)%Z offset = Ok (p1 ++ p2)
        /\ NoDup (map user_id (p1 ++ p2))
        /\ (forall (n : Z) (pn : list FeedEntry),
              (l1 + l2 <= n)%Z -> page n offset = Ok pn ->
              p1 ++ p2 = firstn (Z.to_nat (l1 + l2)) pn))
  /\ (forall limit o : Z,
        (Z.of_nat (List.length all) <= o)%Z -> page limit o = Ok []).
Proof.
  intros Hreq Hn Ho H1 H2 all page.
  assert (Hpage : forall l o, page l o
            = Ok (map (feedEntry now) (JS.slice all o (o + l))))
    by (intros l o; apply getDiscoveryFeed_page, Hreq).
  assert (Hcat : map (feedEntry now) (JS.slice all offset (offset + l1))
                 ++ map (feedEntry now)
                      (JS.slice all (offset + l1) (offset + l1 + l2))
                 = map (feedEntry now)
                     (JS.slice all offset (offset + (l1 + l2)))).
  { rewrite !slice_page by lia. rewrite <- map_app. f_equal.
    replace (Z.to_nat (offset + l1)) with (Z.to_nat l1 + Z.to_nat offset)%nat
      by lia.
    replace (Z.to_nat (l1 + l2)) with (Z.to_nat l1 + Z.to_nat l2)%nat by lia.
    rewrite <- skipn_skipn. apply firstn_firstn_skipn. }
  split; [exact Hpage|]. split.
  - exists (map (feedEntry now) (JS.slice all offset (offset + l1))),
           (map (feedEntry now)
                (JS.slice all (offset + l1) (offset + l1 + l2))).
    split; [apply Hpage|]. split; [apply Hpage|].
    split; [rewrite Hpage, Hcat; reflexivity|]. split.
    + rewrite Hcat, map_map. cbn [feedEntry user_id].
      rewrite slice_page by lia. rewrite <- firstn_map, <- skipn_map.
      apply NoDup_firstn, NoDup_skipn, candidates_NoDup. exact Hn.
    + intros n pn Hle Hpn. rewrite Hpage in Hpn. inversion Hpn; subst pn.
      rewrite Hcat, !slice_page by lia.
      rewrite firstn_map, firstn_firstn. f_equal. f_equal. lia.
  - intros limit o Hbig. rewrite Hpage, slice_beyond by exact Hbig.
    reflexivity.
Qed.

End FeedOrder.

(* ===================================================================== *)
(** ** Dates and ages                                                     *)
(* ===================================================================== *)

Section Calendar.

Local Open Scope Z_scope.

Lemma leaps_step (y : Z) : leaps y <= leaps (y + 1).
Proof. unfold leaps. Z.to_euclidean_division_equations; lia. Qed.

Lemma leaps_mono (a b : Z) : a <= b -> leaps a <= leaps b.
Proof.
  intros H. replace b with (a + (b - a)) by lia.
  assert (Hk : 0 <= b - a) by lia. revert Hk.
  generalize (b - a). intros k Hk. pattern k.
  apply natlike_ind; [rewrite Z.add_0_r; lia | | exact Hk].
  intros x Hx IH. replace (a + Z.succ x) with (a + x + 1) by lia.
  pose proof (leaps_step (a + x)). lia.
Qed.

(** The date of a day number, through the year [y] that begins in March,
    the day [doy] of that year and its month [mp] (0 is March): 365 days a
    year and the leap days count the days up to the year. *)
Lemma civil_decomposition (n : Z) :
  exists y doy mp : Z,
    JS.civil n
    = (if (if mp <? 10 then mp + 3 else mp - 9) <=? 2 then y + 1 else y,
       if mp <? 10 then mp + 3 else mp - 9,
       doy - (153 * mp + 2) / 5 + 1)
    /\ n + 719468 = 365 * y + leaps y + doy
    /\ 0 <= doy <= 365
    /\ 0 <= mp <= 11
    /\ 153 * mp <= 5 * doy + 2 < 153 * (mp + 1).
Proof.
  unfold JS.civil.
  set (z := n + 719468). set (era := z / 146097).
  set (doe := z - era * 146097).
  set (yoe := (doe - doe / 1460 + doe / 36524 - doe / 146096) / 365).
  set (doy := doe - (365 * yoe + yoe / 4 - yoe / 100)).
  set (mp := (5 * doy + 2) / 153).
  exists (yoe + era * 400), doy, mp.
  split; [reflexivity|].
  assert (Hdoe : 0 <= doe < 146097)
    by (subst doe era; Z.to_euclidean_division_equations; lia).
  assert (Hy : 0 <= yoe <= 399 /\ 0 <= doy <= 365).
  { subst doy yoe. clearbody doe. clear - Hdoe.
    Z.to_euclidean_division_equations; lia. }
  destruct Hy as [Hyoe Hdoy].
  assert (Hmp : 153 * mp <= 5 * doy + 2 < 153 * (mp + 1))
    by (subst mp; clearbody doy; Z.to_euclidean_division_equations; lia).
  repeat split; try lia.
  unfold leaps. subst doy doe. clearbody yoe era z.
  Z.to_euclidean_division_equations; lia.
Qed.

Ltac split_dates :=
  repeat match goal with
         | H : context [if ?b then _ else _] |- _ => destruct b eqn:?
         end;
  Z.to_euclidean_division_equations; lia.

(** An age of [j] years takes at least [j] times 365 days. *)
Lemma age_needs_days (n1 n2 j : Z) :
  0 <= j -> j <= age_between (JS.civil n1) (JS.civil n2) ->
  365 * j <= n2 - n1.
Proof.
  intros Hj.
  destruct (civil_decomposition n1)
    as (y1 & doy1 & mp1 & -> & E1 & Hd1 & Hm1 & Hmp1).
  destruct (civil_decomposition n2)
    as (y2 & doy2 & mp2 & -> & E2 & Hd2 & Hm2 & Hmp2).
  unfold age_between.
  pose proof (@leaps_mono y1 (y1 + j)) as L1.
  destruct (Z_le_gt_dec (y1 + j) y2) as [Hge|Hlt].
  - pose proof (@leaps_mono (y1 + j) y2 Hge) as L2.
    destruct (Z.eq_dec y2 (y1 + j)) as [Heq|Hne].
    + subst y2. intros Hage.
      assert (doy1 <= doy2); [|lia].
      destruct (mp1 <? 10) eqn:A1; destruct (mp2 <? 10) eqn:A2; split_dates.
    + intros _.
      pose proof (@leaps_mono (y1 + j + 1) y2 ltac:(lia)) as L3.
      pose proof (leaps_step (y1 + j)). lia.
  - intros Hage. exfalso.
    destruct (mp1 <? 10) eqn:A1; destruct (mp2 <? 10) eqn:A2; split_dates.
Qed.

Lemma calculateAge_dates (now birthDateTimestamp : Z) :
  calculateAge now birthDateTimestamp
  = age_between (JS.civil (birthDateTimestamp / JS.ms_per_day))
                (JS.civil (now / JS.ms_per_day)).
Proof.
  unfold calculateAge, age_between, JS.getFullYear, JS.getMonth, JS.getDate.
  destruct (JS.civil (birthDateTimestamp / JS.ms_per_day)) as [[y1 m1] d1].
  destruct (JS.civil (now / JS.ms_per_day)) as [[y2 m2] d2].
  simpl. destruct (_ || _); reflexivity.
Qed.

(** A birth date later than [now] less [k] times 365 days is an age of
    [k] years at most. *)
Lemma calculateAge_at_most (now b k : Z) :
  0 <= k -> now - k * 365 * 24 * 60 * 60 * 1000 < b ->
  calculateAge now b <= k.
Proof.
  intros Hk Hb.
  destruct (Z_le_gt_dec (calculateAge now b) k) as [Hle|Hgt]; [exact Hle|].
  exfalso. rewrite calculateAge_dates in Hgt.
  assert (Hdays : 365 * (k + 1) <= now / JS.ms_per_day - b / JS.ms_per_day)
    by (apply age_needs_days; lia).
  unfold JS.ms_per_day in Hdays.
  Z.to_euclidean_division_equations; lia.
Qed.

End Calendar.

Lemma skipn_In {A : Type} (n : nat) (l : list A) (x : A) :
  In x (skipn n l) -> In x l.
Proof.
  revert l. induction n as [|n IH]; intros [|y r]; simpl; try tauto.
  intros H. right. apply IH, H.
Qed.

Lemma slice_In {A : Type} (l : list A) (start stop : Z) (x : A) :
  In x (JS.slice l start stop) -> In x l.
Proof.
  unfold JS.slice. intros H. eapply skipn_In, firstn_In, H.
Qed.

Section FeedAges.

Variable calculateDistance : Location -> Location -> JS.number.

(** Every candidate is a user of the table, other than the requester,
    whose birth date is strictly inside the window of the age filter. *)
Lemma candidates_birth_window (now : Z) (R : User.t) (here : Location)
    (db : Db) (c : Candidate) :
  In c (candidates calculateDistance now R here db) ->
  In (user c) (users db)
  /\ User._id (user c) <> User._id R
  /\ exists b : Z,
       User.birth_date (user c) = Some b
       /\ (now - orElse (User.age_max R) 100 * 365 * 24 * 60 * 60 * 1000 < b
           < now - orElse (User.age_min R) 18 * 365 * 24 * 60 * 60 * 1000)%Z.
Proof.
  unfold candidates, unswipedUsers, filteredUsers. intros Hin.
  apply filter_In in Hin. destruct Hin as [Hin _].
  apply (Permutation_in _ (sort_rearranges _ _)) in Hin.
  apply in_map_iff in Hin. destruct Hin as (u & <- & Hu). simpl.
  apply filter_In in Hu. destruct Hu as [Hu _].
  unfold potentialUsers in Hu. apply filter_In in Hu.
  destruct Hu as [Hu Hp].
  apply andb_true_iff in Hp. destruct Hp as [Hp _].
  apply andb_true_iff in Hp. destruct Hp as [Hb Hid].
  split; [exact Hu|]. split.
  - apply negb_true_iff, Nat.eqb_neq in Hid. exact Hid.
  - destruct (User.birth_date u) as [b|]; [|discriminate].
    exists b. split; [reflexivity|].
    apply andb_true_iff in Hb. destruct Hb as [H1 H2].
    apply Z.ltb_lt in H1, H2. lia.
Qed.

(** X2.  The upper bound of the age filter holds: the age the feed shows for
    a candidate is never above [age_max].  With [age_max = 35] no candidate
    aged 36 appears. *)
Theorem feed_age_at_most_age_max (now : Z) (phone : string) (db : Db)
    (R : User.t) (here : Location) (limit offset : Z) (e : FeedEntry)
    (a : Z) :
  requester_of phone db R here ->
  (0 <= orElse (User.age_max R) 100)%Z ->
  forall page : list FeedEntry,
    getDiscoveryFeed calculateDistance now (Some phone) (Some limit)
                     (Some offset) db = Ok page ->
    In e page -> age e = Some a ->
    (a <= orElse (User.age_max R) 100)%Z.
Proof.
  intros Hreq Hmax page Hpage Hin Hage.
  rewrite (getDiscoveryFeed_page calculateDistance now limit offset Hreq)
    in Hpage.
  inversion Hpage; subst page. clear Hpage.
  apply in_map_iff in Hin. destruct Hin as (c & <- & Hc).
  apply slice_In, candidates_birth_window in Hc.
  destruct Hc as (_ & _ & b & Hb & Hlo & _).
  unfold feedEntry in Hage. cbn [age] in Hage. rewrite Hb in Hage.
  destruct (truthy (Some b)); [|discriminate].
  simpl in Hage. inversion Hage; subst a.
  apply calculateAge_at_most; assumption.
Qed.

End FeedAges.

(* ===================================================================== *)
(** ** The feed on the example databases                                  *)
(* ===================================================================== *)

Lemma requester_of_db_of (people : list User.t) :
  forallb (fun u => negb (String.eqb (User.phone_number u) "+100")) people
  = true ->
  requester_of "+100" (db_of people) requester home.
Proof.
  intros Hp. unfold requester_of, db_of. cbn [users filter].
  change (String.eqb (User.phone_number requester) "+100") with true.
  cbv iota.
  replace (filter (fun u => String.eqb (User.phone_number u) "+100") people)
    with (@nil User.t).
  - repeat split; reflexivity.
  - symmetry. induction people as [|p r IH]; [reflexivity|].
    simpl in Hp. apply andb_true_iff in Hp. destruct Hp as [Hp Hr].
    simpl. apply negb_true_iff in Hp. rewrite Hp. apply IH, Hr.
Qed.

Lemma requester_of_tie_db : requester_of "+100" tie_db requester home.
Proof. unfold tie_db. apply requester_of_db_of. reflexivity. Qed.

Lemma requester_of_five_db : requester_of "+100" five_db requester home.
Proof. unfold five_db. apply requester_of_db_of. reflexivity. Qed.

Lemma getDiscoveryFeed_incomplete_profile_witness :
  getDiscoveryFeed gridDistance today (Some "+100"%string) (Some 5%Z)
                   (Some 0%Z) nowhere_db = Ok [].
Proof.
  apply (@getDiscoveryFeed_incomplete_profile gridDistance today "+100"
           nowhere_db
           (User.mk 1 "+100" (Some "Ann"%string) (Some 830908800000%Z)
                    None None None None None None None)).
  - reflexivity.
  - left. reflexivity.
Defined.

(** C6, the failing case.  The requester asks for candidates aged 25 to
    35.  The candidate born on 2001-11-07 is 24 on 2026-11-02, by
    [calculateAge] itself; the feed returns them, with that age, because
    the filter compares the birth date with [now] less 25 times 365 days,
    and 25 years are six days longer. *)
Theorem feed_shows_candidate_younger_than_age_min :
  User.age_min requester = Some 25%Z
  /\ calculateAge today 1005091200000 = 24%Z
  /\ getDiscoveryFeed gridDistance today (Some "+100"%string) None None
                      young_db
     = Ok [{| user_id := 21; first_name := Some "Sam"%string;
              age := Some 24%Z; bio := None;
              distance_km := JS.finite (0 / 10);
              photos := [] |}].
Proof.
  split; [reflexivity|]. split; vm_compute; reflexivity.
Qed.

Lemma gridDistance_numbers (here : Location) (db : Db) :
  distances_are_numbers gridDistance here db.
Proof. intros u there _ _. discriminate. Qed.

Lemma feed_sorted_by_distance_stable_witness :
  page_of tie_db 2 1
  = Ok (map (feedEntry today) (JS.slice tie_candidates 1 (1 + 2)))
  /\ StronglySorted closer tie_candidates
  /\ (forall d : Q,
        at_distance d tie_candidates
        = at_distance d (eligible gridDistance today requester home tie_db)).
Proof.
  destruct (@feed_sorted_by_distance_stable gridDistance today "+100" tie_db
              requester home 2 1 requester_of_tie_db
              (@gridDistance_numbers home tie_db))
    as (Hpage & Hall & _ & _ & Hties).
  repeat split; assumption.
Defined.

Lemma StronglySorted_first_two {A : Type} (R : A -> A -> Prop) (a b : A)
    (l : list A) :
  StronglySorted R (a :: b :: l) -> R a b.
Proof.
  intros H. inversion H as [|? ? _ Hall]; subst.
  inversion Hall; assumption.
Qed.

(** C7, the counterexample.  Users 5, 3 and 7 are at the same distance
    from the requester, and the feed lists them in this order, the order of
    the users table: at equal distance the candidates are ordered by
    identifier neither upwards nor downwards. *)
Lemma equidistant_candidates_not_in_identifier_order :
  getDiscoveryFeed gridDistance today (Some "+100"%string) None None tie_db
  = Ok (map (feedEntry today) tie_candidates)
  /\ map (fun c => User._id (user c)) tie_candidates = [5; 3; 7]
  /\ Forall (fun c => JS.num_eq (distance c) (JS.finite (555 # 100)))
            tie_candidates
  /\ ~ StronglySorted closer_then_id tie_candidates
  /\ ~ StronglySorted closer_then_id_desc tie_candidates.
Proof.
  split; [vm_compute; reflexivity|].
  split; [vm_compute; reflexivity|].
  destruct tie_candidates as [|a [|b [|c r]]] eqn:E; vm_compute in E;
    try discriminate.
  injection E as <- <- <- <-.
  split; [|split].
  - repeat (constructor; try (vm_compute; reflexivity)).
  - intros H. apply StronglySorted_first_two in H.
    destruct H as [H | [_ H]]; [vm_compute in H; discriminate | simpl in H; lia].
  - intros H. inversion H as [|? ? Htail _]; subst.
    apply StronglySorted_first_two in Htail.
    destruct Htail as [H' | [_ H']];
      [vm_compute in H'; discriminate | simpl in H'; lia].
Qed.

Lemma five_db_ids : NoDup (map User._id (users five_db)).
Proof.
  simpl. repeat constructor; simpl; intros H;
    repeat (destruct H as [H|H]; [discriminate|]); exact H.
Qed.

Lemma feed_pagination_witness :
  exists p1 p2 : list FeedEntry,
    page_of five_db 2 0 = Ok p1
    /\ page_of five_db 2 2 = Ok p2
    /\ page_of five_db 4 0 = Ok (p1 ++ p2)
    /\ NoDup (map user_id (p1 ++ p2))
    /\ page_of five_db 2 5 = Ok [].
Proof.
  destruct (@feed_pagination gridDistance today "+100" five_db requester home
              0 2 2 requester_of_five_db five_db_ids)
    as (_ & (p1 & p2 & H1 & H2 & H4 & Hn & _) & Hend); try lia.
  exists p1, p2. split; [exact H1|]. split; [exact H2|].
  split; [exact H4|]. split; [exact Hn|].
  apply Hend. vm_compute. discriminate.
Defined.

(** C8, the counterexample.  Over five candidates, the page of 2 from 0
    followed by the page of 2 from 2 has four entries, users 11 to 14; the
    page of 5 from 0 has the five. *)
Lemma two_pages_of_two_are_not_the_page_of_five :
  exists p1 p2 p5 : list FeedEntry,
    page_of five_db 2 0 = Ok p1
    /\ page_of five_db 2 2 = Ok p2
    /\ page_of five_db 5 0 = Ok p5
    /\ map user_id (p1 ++ p2) = [11; 12; 13; 14]
    /\ map user_id p5 = [11; 12; 13; 14; 15]
    /\ p1 ++ p2 <> p5.
Proof.
  eexists. eexists. eexists.
  split; [vm_compute; reflexivity|].
  split; [vm_compute; reflexivity|].
  split; [vm_compute; reflexivity|].
  split; [reflexivity|]. split; [reflexivity|].
  intros H. apply (f_equal (@List.length FeedEntry)) in H. discriminate H.
Qed.

(* ===================================================================== *)
(** ** More of the feed: who is shown, how far, how many                  *)
(* ===================================================================== *)

Section FeedFilters.

Variable calculateDistance : Location -> Location -> JS.number.

(** What the filters of the handler leave of the users table. *)
Lemma candidates_filters (now : Z) (R : User.t) (here : Location) (db : Db)
    (c : Candidate) :
  In c (candidates calculateDistance now R here db) ->
  In (user c) (users db)
  /\ distance c = distance_of calculateDistance here (user c)
  /\ accepts calculateDistance here (orElse (User.max_distance R) 50%Q)
             (orElse (User.show_me R) "everyone"%string) (user c) = true
  /\ isSome (User.location (user c)) = true
  /\ existsb (Nat.eqb (User._id (user c))) (swipedIds R db) = false.
Proof.
  unfold candidates, unswipedUsers, filteredUsers. intros Hin.
  apply filter_In in Hin. destruct Hin as [Hin Hsw].
  apply negb_true_iff in Hsw.
  apply (Permutation_in _ (sort_rearranges _ _)) in Hin.
  apply in_map_iff in Hin. destruct Hin as (u & <- & Hu). simpl in *.
  apply filter_In in Hu. destruct Hu as [Hu Hacc].
  unfold potentialUsers in Hu. apply filter_In in Hu.
  destruct Hu as [Hu Hp].
  apply andb_true_iff in Hp. destruct Hp as [_ Hloc].
  auto.
Qed.

Lemma page_entry (now : Z) (phone : string) (db : Db) (R : User.t)
    (here : Location) (limit offset : option Z) (page : list FeedEntry)
    (e : FeedEntry) :
  requester_of phone db R here ->
  getDiscoveryFeed calculateDistance now (Some phone) limit offset db
  = Ok page ->
  In e page ->
  exists c, In c (candidates calculateDistance now R here db)
            /\ e = feedEntry now c.
Proof.
  intros (Hu & Hloc & Hb) Hpage Hin. unfold getDiscoveryFeed in Hpage.
  rewrite Hu, Hloc, Hb in Hpage. inversion Hpage; subst page.
  apply in_map_iff in Hin. destruct Hin as (c & <- & Hc).
  exists c. split; [eapply slice_In, Hc | reflexivity].
Qed.

(** X4.  Nobody sees themselves, nor a user they have swiped on already,
    whatever the action of that swipe; every entry of the feed is a user of
    the table who has a location. *)
Theorem feed_hides_self_and_swiped (now : Z) (phone : string) (db : Db)
    (R : User.t) (here : Location) (limit offset : option Z)
    (page : list FeedEntry) (e : FeedEntry) :
  requester_of phone db R here ->
  getDiscoveryFeed calculateDistance now (Some phone) limit offset db
  = Ok page ->
  In e page ->
  user_id e <> User._id R
  /\ by_pair (User._id R) (user_id e) (swipes db) = []
  /\ exists u, In u (users db) /\ User._id u = user_id e
               /\ User.location u <> None.
Proof.
  intros Hreq Hpage Hin.
  destruct (@page_entry now phone db R here limit offset page e Hreq Hpage Hin)
    as (c & Hc & ->).
  destruct (@candidates_birth_window _ _ _ _ _ _ Hc) as (_ & Hself & _).
  destruct (@candidates_filters _ _ _ _ _ Hc) as (Hu & _ & _ & Hloc & Hsw).
  cbn [feedEntry user_id]. split; [exact Hself|]. split.
  - destruct (by_pair (User._id R) (User._id (user c)) (swipes db))
      as [|s r] eqn:E; [reflexivity|exfalso].
    assert (Hs : In s (by_pair (User._id R) (User._id (user c)) (swipes db)))
      by (rewrite E; left; reflexivity).
    apply by_pair_In in Hs. destruct Hs as (Hs & Hsw1 & Hsw2).
    assert (Hex : existsb (Nat.eqb (User._id (user c))) (swipedIds R db)
                  = true).
    { apply existsb_exists. exists (Swipe.swiped_id s). split.
      - unfold swipedIds. apply in_map, filter_In. split; [exact Hs|].
        apply Nat.eqb_eq. exact Hsw1.
      - apply Nat.eqb_eq. symmetry. exact Hsw2. }
    congruence.
  - exists (user c). split; [exact Hu|]. split; [reflexivity|].
    destruct (User.location (user c)); [discriminate | discriminate].
Qed.

(** X5.  The distance of every candidate is within [max_distance] (50
    when unset) or is NaN: a distance that is not a number passes the
    distance filter.  Every candidate is of the gender asked for when
    [show_me] is "men" or "women" in any capitalisation: "male" for "men"
    and "female" for "women", again in any capitalisation. *)
Theorem feed_distance_and_gender (now : Z) (R : User.t) (here : Location)
    (db : Db) (c : Candidate) :
  In c (candidates calculateDistance now R here db) ->
  let showMe := orElse (User.show_me R) "everyone"%string in
  match distance c with
  | JS.finite d => (d <= orElse (User.max_distance R) 50)%Q
  | JS.NaN => True
  end
  /\ (JS.toLowerCase showMe = "men"%string ->
      option_map JS.toLowerCase (User.gender (user c)) = Some "male"%string)
  /\ (JS.toLowerCase showMe = "women"%string ->
      option_map JS.toLowerCase (User.gender (user c))
      = Some "female"%string).
Proof.
  intros Hc showMe.
  destruct (@candidates_filters _ _ _ _ _ Hc) as (_ & Hd & Hacc & _ & _).
  fold showMe in Hacc. unfold accepts in Hacc. rewrite <- Hd in Hacc.
  destruct (JS.gt (distance c) (orElse (User.max_distance R) 50%Q)) eqn:Hgt;
    [discriminate|].
  split.
  { destruct (distance c) as [|d]; [exact I|]. cbn [JS.gt] in Hgt.
    apply negb_false_iff in Hgt. apply Qle_bool_iff, Hgt. }
  assert (Hev : forall s, JS.toLowerCase showMe = s ->
                          s <> "everyone"%string ->
                          String.eqb showMe "everyone" = false).
  { intros s Hs Hne. apply String.eqb_neq. intros E. apply Hne.
    rewrite <- Hs, E. reflexivity. }
  assert (Hopt : forall (g : option string) (s : string),
            option_string_eqb g s = true -> g = Some s).
  { intros [g|] s H; [|discriminate]. simpl in H.
    apply String.eqb_eq in H. subst. reflexivity. }
  split; intros Hs.
  - rewrite (Hev _ Hs) in Hacc by discriminate. simpl in Hacc.
    rewrite Hs in Hacc. simpl in Hacc.
    apply Hopt.
    destruct (option_string_eqb _ "male"); [reflexivity | discriminate].
  - rewrite (Hev _ Hs) in Hacc by discriminate. simpl in Hacc.
    rewrite Hs in Hacc. simpl in Hacc.
    apply Hopt.
    destruct (option_string_eqb _ "female"); [reflexivity | discriminate].
Qed.

End FeedFilters.

Lemma slice_length {A : Type} (l : list A) (start n : Z) :
  (0 <= n)%Z -> List.length (JS.slice l start (start + n)) <= Z.to_nat n.
Proof.
  intros Hn. unfold JS.slice, JS.rel_index.
  rewrite length_firstn, length_skipn.
  destruct (Z.ltb_spec start 0), (Z.ltb_spec (start + n) 0); lia.
Qed.

(** [l.slice(0, -k)]: all but the last [k] elements. *)
Lemma slice_negative_stop {A : Type} (l : list A) (k : Z) :
  (0 < k)%Z -> JS.slice l 0 (- k) = firstn (List.length l - Z.to_nat k) l.
Proof.
  intros Hk. unfold JS.slice, JS.rel_index.
  destruct (Z.ltb_spec 0 0); [lia|].
  destruct (Z.ltb_spec (- k) 0); [|lia].
  rewrite Z.min_l by lia. simpl. f_equal. lia.
Qed.

Lemma filter_andb {A : Type} (p q : A -> bool) (l : list A) :
  filter (fun x => p x && q x) l = filter q (filter p l).
Proof.
  induction l as [|x r IH]; simpl; [reflexivity|].
  destruct (p x); simpl; [destruct (q x)|]; rewrite IH; reflexivity.
Qed.

Section FeedAndSwipes.

Variable calculateDistance : Location -> Location -> JS.number.

(** X6.  For a limit that is not negative the page has at most [limit]
    entries, 20 when the limit is left out, for every offset, negative ones
    included. *)
Theorem feed_page_size (now : Z) (identity : option string)
    (limit offset : option Z) (db : Db) (page : list FeedEntry) :
  (0 <= orElse limit 20)%Z ->
  getDiscoveryFeed calculateDistance now identity limit offset db = Ok page ->
  List.length page <= Z.to_nat (orElse limit 20%Z).
Proof.
  intros Hl. unfold getDiscoveryFeed.
  destruct identity as [phone|]; [|discriminate].
  destruct (unique _) as [[R|]|e]; try discriminate.
  destruct (User.location R) as [here|];
    [destruct (truthy (User.birth_date R))|];
    intros E; inversion E; subst page; simpl; try lia.
  rewrite length_map. apply slice_length. exact Hl.
Qed.

(** X7.  A negative limit does not give an empty page: with offset 0 and the
    limit [-k], the page is all the candidates but the last [k]. *)
Theorem feed_negative_limit (now : Z) (phone : string) (db : Db)
    (R : User.t) (here : Location) (k : Z) :
  requester_of phone db R here -> (0 < k)%Z ->
  getDiscoveryFeed calculateDistance now (Some phone) (Some (- k)%Z)
                   (Some 0%Z) db
  = Ok (map (feedEntry now)
          (firstn (List.length (candidates calculateDistance now R here db)
                   - Z.to_nat k)
                  (candidates calculateDistance now R here db))).
Proof.
  intros Hreq Hk.
  rewrite (getDiscoveryFeed_page calculateDistance now (- k) 0 Hreq).
  rewrite Z.add_0_l, slice_negative_stop by exact Hk. reflexivity.
Qed.

(** X8.  The feed reads the swipes table as it is: when the table holds one
    more swipe of the requester, on a user C and with either action, C is
    gone from the requester's candidates, and the other candidates stay, in
    their order. *)
Theorem feed_after_swipe (now : Z) (phone : string) (db db' : Db)
    (R : User.t) (here : Location) (s : Swipe.t) :
  requester_of phone db R here ->
  users db' = users db -> swipes db' = swipes db ++ [s] ->
  Swipe.swiper_id s = User._id R ->
  requester_of phone db' R here
  /\ candidates calculateDistance now R here db'
     = filter (fun c => negb (Nat.eqb (User._id (user c))
                                      (Swipe.swiped_id s)))
              (candidates calculateDistance now R here db)
  /\ forall (limit offset : option Z) (page : list FeedEntry),
       getDiscoveryFeed calculateDistance now (Some phone) limit offset db'
       = Ok page ->
       ~ In (Swipe.swiped_id s) (map user_id page).
Proof.
  intros Hreq Hu Hs Hsw.
  assert (Hreq' : requester_of phone db' R here)
    by (unfold requester_of in *; rewrite Hu; exact Hreq).
  assert (Hcand : candidates calculateDistance now R here db'
     = filter (fun c => negb (Nat.eqb (User._id (user c))
                                      (Swipe.swiped_id s)))
              (candidates calculateDistance now R here db)).
  { unfold candidates, unswipedUsers, potentialUsers, swipedIds.
    rewrite Hu, Hs, filter_app, map_app. cbn [filter].
    rewrite Hsw, Nat.eqb_refl. cbn [map].
    rewrite <- filter_andb. apply filter_ext. intros c.
    rewrite existsb_app. simpl. rewrite orb_false_r, negb_orb.
    reflexivity. }
  split; [exact Hreq'|]. split; [exact Hcand|].
  intros limit offset page Hpage Hin.
  apply in_map_iff in Hin. destruct Hin as (e & He & Hin).
  destruct Hreq' as (Hq & Hloc & Hb). unfold getDiscoveryFeed in Hpage.
  rewrite Hq, Hloc, Hb in Hpage. inversion Hpage; subst page.
  apply in_map_iff in Hin. destruct Hin as (c & <- & Hc).
  apply slice_In in Hc. rewrite Hcand in Hc. apply filter_In in Hc.
  destruct Hc as [_ Hc]. apply negb_true_iff, Nat.eqb_neq in Hc.
  apply Hc. exact He.
Qed.

End FeedAndSwipes.

(* ===================================================================== *)
(** ** More of calculateAge: the age against the days lived                *)
(* ===================================================================== *)

Section AgeInDays.

Local Open Scope Z_scope.

Lemma leaps_step_le (y : Z) : leaps (y + 1) <= leaps y + 1.
Proof. unfold leaps. Z.to_euclidean_division_equations; lia. Qed.

Lemma leaps_growth (a b : Z) : a <= b -> leaps b - leaps a <= b - a.
Proof.
  intros H. replace b with (a + (b - a)) by lia.
  assert (Hk : 0 <= b - a) by lia. revert Hk.
  generalize (b - a). intros k Hk. pattern k.
  apply natlike_ind; [rewrite Z.add_0_r; lia | | exact Hk].
  intros x Hx IH. replace (a + Z.succ x) with (a + x + 1) by lia.
  pose proof (leaps_step_le (a + x)). lia.
Qed.

Ltac split_months :=
  repeat match goal with
         | |- context [if ?b then _ else _] => destruct b eqn:?
         end;
  Z.to_euclidean_division_equations; lia.

(** [j] times 366 days lived make an age of [j] years at least. *)
Lemma days_give_age (n1 n2 j : Z) :
  1 <= j -> 366 * j <= n2 - n1 ->
  j <= age_between (JS.civil n1) (JS.civil n2).
Proof.
  intros Hj Hdays.
  destruct (civil_decomposition n1)
    as (y1 & doy1 & mp1 & -> & E1 & Hd1 & Hm1 & Hmp1).
  destruct (civil_decomposition n2)
    as (y2 & doy2 & mp2 & -> & E2 & Hd2 & Hm2 & Hmp2).
  unfold age_between.
  destruct (Z_le_gt_dec y1 y2) as [Hle|Hgt].
  - pose proof (@leaps_growth y1 y2 Hle) as L.
    assert (Hy : y1 + j < y2 \/ (y2 = y1 + j /\ doy1 <= doy2)) by lia.
    destruct Hy as [Hy | [-> Hd]].
    + destruct (mp1 <? 10) eqn:A1; destruct (mp2 <? 10) eqn:A2; split_months.
    + clear L Hdays E1 E2.
      destruct (mp1 <? 10) eqn:A1; destruct (mp2 <? 10) eqn:A2; split_months.
  - exfalso. pose proof (@leaps_mono y2 y1 ltac:(lia)). lia.
Qed.

(** X1.  The age that [calculateAge] gives, when it is not negative, against
    the whole days between the two time stamps: at least 365 days for each
    year of age, and fewer than 366 for each year up to the next birthday. *)
Theorem calculateAge_days (now b : Z) :
  0 <= calculateAge now b ->
  let days := now / JS.ms_per_day - b / JS.ms_per_day in
  365 * calculateAge now b <= days < 366 * (calculateAge now b + 1).
Proof.
  intros Hage days. rewrite calculateAge_dates in *. split.
  - apply age_needs_days; [exact Hage | lia].
  - destruct (Z_lt_ge_dec days
                (366 * (age_between (JS.civil (b / JS.ms_per_day))
                          (JS.civil (now / JS.ms_per_day)) + 1)))
      as [Hlt|Hge]; [exact Hlt|exfalso].
    assert (H : age_between (JS.civil (b / JS.ms_per_day))
                  (JS.civil (now / JS.ms_per_day)) + 1
                <= age_between (JS.civil (b / JS.ms_per_day))
                     (JS.civil (now / JS.ms_per_day)))
      by (apply days_give_age; [lia | subst days; lia]).
    lia.
Qed.

(** A birth date earlier than [now] less [k] times 365 days is an age of
    [k - 1] years at least, for [k] from 2 to 366. *)
Lemma calculateAge_at_least (now b k : Z) :
  2 <= k <= 366 -> b < now - k * 365 * 24 * 60 * 60 * 1000 ->
  k - 1 <= calculateAge now b.
Proof.
  intros Hk Hb. rewrite calculateAge_dates. apply days_give_age; [lia|].
  unfold JS.ms_per_day. Z.to_euclidean_division_equations; lia.
Qed.

End AgeInDays.

Section FeedAgesBelow.

Variable calculateDistance : Location -> Location -> JS.number.

(** X3.  The lower bound of the age filter is off by one year at most: for
    [age_min] from 2 to 366 (18 when unset), the age the feed shows for a
    candidate is [age_min - 1] at least. *)
Theorem feed_age_at_least_age_min_less_one (now : Z) (phone : string)
    (db : Db) (R : User.t) (here : Location) (limit offset : option Z)
    (e : FeedEntry) (a : Z) :
  requester_of phone db R here ->
  (2 <= orElse (User.age_min R) 18 <= 366)%Z ->
  forall page : list FeedEntry,
    getDiscoveryFeed calculateDistance now (Some phone) limit offset db
    = Ok page ->
    In e page -> age e = Some a ->
    (orElse (User.age_min R) 18 - 1 <= a)%Z.
Proof.
  intros Hreq Hmin page Hpage Hin Hage.
  destruct (@page_entry calculateDistance now phone db R here limit offset
              page e Hreq Hpage Hin) as (c & Hc & ->).
  apply candidates_birth_window in Hc.
  destruct Hc as (_ & _ & b & Hb & _ & Hhi).
  unfold feedEntry in Hage. cbn [age] in Hage. rewrite Hb in Hage.
  destruct (truthy (Some b)); [|discriminate].
  simpl in Hage. inversion Hage; subst a.
  apply calculateAge_at_least; assumption.
Qed.

End FeedAgesBelow.

(* ===================================================================== *)
(** ** More of the matching mutations                                     *)
(* ===================================================================== *)

(** X11.  No sequence of calls of the core mutations writes the users, the
    swipes or the matches table, whatever the calls, their arguments and
    the database they start from: [recordSwipe] throws before its inserts,
    [unmatchUsers] is rejected by the schema, and the message mutations
    write messages and notifications.  From a database without swipes and
    matches no swipe and no match is ever recorded. *)
Theorem core_never_writes_swipes_or_matches (calls : list Call) (db : Db) :
  users (run calls db) = users db
  /\ swipes (run calls db) = swipes db
  /\ matches (run calls db) = matches db
  /\ swipes (run calls empty_db) = []
  /\ matches (run calls empty_db) = [].
Proof.
  assert (H : forall db, users (run calls db) = users db
                         /\ swipes (run calls db) = swipes db
                         /\ matches (run calls db) = matches db).
  { clear db. unfold run.
    induction calls as [|c r IH]; intros db; cbn [fold_left]; [auto|].
    destruct (IH (exec c db)) as (Eu & Es & Em).
    destruct (exec_keeps_swipes_and_matches c db) as (Eu' & Es' & Em').
    repeat split; congruence. }
  destruct (H db) as (Eu & Es & Em). destruct (H empty_db) as (_ & Es0 & Em0).
  repeat split; assumption.
Qed.

Lemma get_match_exists (i : Id) (db : Db) (m : Match.t) :
  get_match i db = Some m ->
  existsb (fun x => Nat.eqb (Match._id x) i) (matches db) = true
  /\ In m (matches db) /\ Match._id m = i.
Proof.
  unfold get_match. intros H. apply find_some in H. destruct H as [Hin Hid].
  split; [apply existsb_exists; exists m; auto|].
  split; [exact Hin | apply Nat.eqb_eq, Hid].
Qed.

Lemma get_match_missing (i : Id) (db : Db) :
  get_match i db = None ->
  existsb (fun x => Nat.eqb (Match._id x) i) (matches db) = false.
Proof.
  unfold get_match. intros H.
  destruct (existsb _ (matches db)) eqn:E; [exfalso|reflexivity].
  apply existsb_exists in E. destruct E as (x & Hx & Hid).
  rewrite (find_none _ _ H x Hx) in Hid. discriminate.
Qed.

Lemma not_participant_test_false (u : Id) (m : Match.t) :
  participant u m ->
  negb (Nat.eqb (Match.user1_id m) u) && negb (Nat.eqb (Match.user2_id m) u)
  = false.
Proof.
  intros Hp.
  destruct (negb (Nat.eqb (Match.user1_id m) u)
            && negb (Nat.eqb (Match.user2_id m) u)) eqn:E; [|reflexivity].
  apply not_participant_test in E. contradiction.
Qed.

(* ===================================================================== *)
(** ** More of the message mutations and queries                          *)
(* ===================================================================== *)

Lemma length_substring_le (n k : nat) (s : string) :
  String.length (String.substring n k s) <= k.
Proof.
  revert n k. induction s as [|c r IH]; intros [|n] [|k]; simpl;
    try lia.
  - specialize (IH 0 k). lia.
  - apply IH.
  - apply IH.
Qed.

Lemma length_append (s1 s2 : string) :
  String.length (s1 ++ s2) = String.length s1 + String.length s2.
Proof. induction s1 as [|c r IH]; simpl; [reflexivity | rewrite IH; lia]. Qed.

(** The text of a notification has 53 characters at most. *)
Lemma preview_length (content : string) :
  String.length (preview content) <= 53.
Proof.
  unfold preview. destruct (Nat.ltb_spec 50 (String.length content)).
  - rewrite length_append. pose proof (length_substring_le 0 50 content).
    simpl. lia.
  - lia.
Qed.

(** X15.  A message that is sent makes exactly one notification: for the
    other participant (never for the sender of a match of two distinct
    users), about the new message, unread, with the content cut at 50
    characters and "..." (53 characters at most), or the whole content when
    it has 50 characters or fewer.  Users, swipes and matches are untouched.
    *)
Theorem sendMessage_notifies_recipient (now : Z) (i s : Id)
    (content : string) (message_type : option string) (db : Db)
    (m : Match.t) :
  get_match i db = Some m -> participant s m -> Match.is_active m = true ->
  let call := sendMessage now i s content message_type db in
  let recipient :=
    if Nat.eqb (Match.user1_id m) s then Match.user2_id m
    else Match.user1_id m in
  let messageId := fresh_id (map Message._id (messages db)) in
  snd call = Ok messageId
  /\ notifications (after call)
     = notifications db
       ++ [Notification.mk
             (fresh_id (map Notification._id (notifications db)))
             recipient "new_message" (Some messageId) "New Message"
             (preview content) false now]
  /\ participant recipient m
  /\ (Match.user1_id m <> Match.user2_id m -> recipient <> s)
  /\ String.length (preview content) <= 53
  /\ (String.length content <= 50 -> preview content = content)
  /\ users (after call) = users db
  /\ swipes (after call) = swipes db
  /\ matches (after call) = matches db.
Proof.
  intros Hget Hp Hact call recipient messageId. subst call.
  unfold sendMessage, mutation, sendMessage_handler, bind, read, after.
  rewrite Hget. rewrite (not_participant_test_false Hp), Hact. simpl.
  repeat split.
  - subst recipient. unfold participant.
    destruct (Nat.eqb (Match.user1_id m) s); auto.
  - subst recipient. intros Hne.
    destruct (Nat.eqb_spec (Match.user1_id m) s) as [E|E]; [|exact E].
    destruct Hp as [Hp|Hp]; congruence.
  - apply preview_length.
  - intros Hlen. unfold preview.
    destruct (Nat.ltb_spec 50 (String.length content)); [lia|reflexivity].
Qed.

Lemma NoDup_map_injective {A B : Type} (f : A -> B) (l : list A) (x y : A) :
  NoDup (map f l) -> In x l -> In y l -> f x = f y -> x = y.
Proof.
  induction l as [|z r IH]; simpl; [tauto|].
  intros Hn Hx Hy E. inversion Hn as [|? ? Hz Hr]; subst.
  destruct Hx as [<-|Hx]; destruct Hy as [<-|Hy]; auto.
  - exfalso. apply Hz. rewrite E. apply in_map, Hy.
  - exfalso. apply Hz. rewrite <- E. apply in_map, Hx.
Qed.

Lemma set_read_read (m : Message.t) :
  Message.is_read m = true -> set_read m = m.
Proof. destruct m; simpl; intros ->; reflexivity. Qed.

(** The loop of [markConversationAsRead] over messages of the table: every
    document whose identifier is one of theirs is read afterwards. *)
Lemma for_each_patch_read (l : list Message.t) (db : Db) :
  (forall x, In x l ->
     existsb (fun y => Nat.eqb (Message._id y) (Message._id x))
             (messages db) = true) ->
  for_each l (fun message => patch_message (Message._id message) set_read) db
  = ({| users := users db;
        swipes := swipes db;
        matches := matches db;
        messages :=
          map (fun y => if existsb (fun x => Nat.eqb (Message._id y)
                                                     (Message._id x)) l
                        then set_read y else y) (messages db);
        notifications := notifications db |}, Ok tt).
Proof.
  revert db. induction l as [|x r IH]; intros db Hex.
  - simpl. unfold ret. rewrite map_id. destruct db; reflexivity.
  - cbn [for_each]. unfold bind at 1. unfold patch_message at 1.
    rewrite (Hex x (or_introl eq_refl)).
    rewrite IH.
    + cbn [users swipes matches messages notifications].
      rewrite map_map. f_equal. f_equal. apply map_ext. intros y.
      cbn [existsb].
      destruct (Nat.eqb (Message._id y) (Message._id x)) eqn:E; simpl.
      * destruct (existsb _ r); reflexivity.
      * reflexivity.
    + intros x' Hx'. cbn [messages].
      specialize (Hex x' (or_intror Hx')).
      apply existsb_exists in Hex. destruct Hex as (y & Hy & Hid).
      apply existsb_exists.
      exists (if Nat.eqb (Message._id y) (Message._id x)
              then set_read y else y).
      split.
      * apply in_map_iff. exists y. auto.
      * destruct (Nat.eqb (Message._id y) (Message._id x)); exact Hid.
Qed.

(** X18.  [markConversationAsRead(match, user)], on a messages table with
    distinct identifiers: the messages of the match sent by the other user
    ([user2] for a caller who is [user1], [user1] for every other caller,
    participant or not) are read afterwards, and nothing else changes: no
    message of another match or another sender, no other field, no other
    table.  The caller is not checked against the participants. *)
Theorem markConversationAsRead_scope (i u : Id) (db : Db) (m : Match.t) :
  get_match i db = Some m ->
  NoDup (map Message._id (messages db)) ->
  let otherUserId :=
    if Nat.eqb (Match.user1_id m) u then Match.user2_id m
    else Match.user1_id m in
  markConversationAsRead i u db
  = ({| users := users db;
        swipes := swipes db;
        matches := matches db;
        messages :=
          map (fun y => if Nat.eqb (Message.match_id y) i
                           && Nat.eqb (Message.sender_id y) otherUserId
                        then set_read y else y) (messages db);
        notifications := notifications db |}, Ok tt).
Proof.
  intros Hget Hn other.
  unfold markConversationAsRead, mutation, markConversationAsRead_handler,
    bind, read.
  rewrite Hget. fold other. cbv beta iota.
  set (unread := filter _ (filter _ (messages db))).
  assert (Hin : forall x, In x unread <->
            In x (messages db) /\ Message.match_id x = i
            /\ Message.is_read x = false /\ Message.sender_id x = other).
  { intros x. subst unread.
    rewrite !filter_In, andb_true_iff, negb_true_iff, !Nat.eqb_eq. tauto. }
  rewrite for_each_patch_read.
  - f_equal. f_equal. apply map_ext_in. intros y Hy.
    destruct (existsb (fun x => Nat.eqb (Message._id y) (Message._id x))
                      unread) eqn:Ex.
    + apply existsb_exists in Ex. destruct Ex as (x & Hx & Hid).
      apply Nat.eqb_eq in Hid. apply Hin in Hx.
      destruct Hx as (Hxin & Hm & _ & Hs).
      assert (y = x) by (eapply NoDup_map_injective; eassumption).
      subst x. rewrite Hm, Hs, !Nat.eqb_refl. reflexivity.
    + destruct (Nat.eqb (Message.match_id y) i
                && Nat.eqb (Message.sender_id y) other) eqn:Ec;
        [|reflexivity].
      apply andb_true_iff in Ec. destruct Ec as [Em Es].
      apply Nat.eqb_eq in Em, Es.
      destruct (Message.is_read y) eqn:Er;
        [symmetry; apply set_read_read, Er|].
      exfalso.
      assert (Hyu : In y unread) by (apply Hin; auto).
      assert (Ht : existsb (fun x => Nat.eqb (Message._id y) (Message._id x))
                           unread = true).
      { apply existsb_exists. exists y. split; [exact Hyu|].
        apply Nat.eqb_refl. }
      congruence.
  - intros x Hx. apply Hin in Hx. destruct Hx as (Hx & _).
    apply existsb_exists. exists x. split; [exact Hx | apply Nat.eqb_refl].
Qed.

Lemma is_not_participant (U : User.t) (m : Match.t) :
  is_not (Some U) (Match.user1_id m) && is_not (Some U) (Match.user2_id m)
  = false <-> participant (User._id U) m.
Proof.
  unfold is_not, participant.
  rewrite andb_false_iff, !negb_false_iff, !Nat.eqb_eq.
  split; intros [H|H]; auto.
Qed.

(** X19.  [getConversationMessages] for a participant of the match, active
    or not: of the messages of the match (those sent before [before], when
    [before] is given and not 0), the last [limit] (50 when left out) in the
    order of the table, oldest first.  For a known user who is not a
    participant, and for an identity without user, it fails with
    Unauthorized. *)
Theorem getConversationMessages_window (phone : string) (i : Id)
    (limit : option nat) (before : option Z) (db : Db) (m : Match.t) :
  get_match i db = Some m ->
  let ofMatch := by_match i (messages db) in
  let selected :=
    if truthy before
    then filter (fun msg => (Message.sent_at msg <? orElse before 0)%Z)
                ofMatch
    else ofMatch in
  (forall U, currentUserOf phone db = Ok (Some U) ->
     participant (User._id U) m ->
     getConversationMessages (Some phone) i limit before db
     = Ok (map messageView
             (skipn (List.length selected - orElse limit 50) selected)))
  /\ (forall U, currentUserOf phone db = Ok (Some U) ->
        ~ participant (User._id U) m ->
        getConversationMessages (Some phone) i limit before db
        = Err Unauthorized)
  /\ (currentUserOf phone db = Ok None ->
      getConversationMessages (Some phone) i limit before db
      = Err Unauthorized).
Proof.
  intros Hget ofMatch selected. unfold getConversationMessages.
  rewrite Hget. split; [|split].
  - intros U HU Hp. rewrite HU.
    apply is_not_participant in Hp. rewrite Hp.
    fold ofMatch. fold selected.
    rewrite firstn_rev, rev_involutive. reflexivity.
  - intros U HU Hp. rewrite HU.
    destruct (is_not (Some U) (Match.user1_id m)
              && is_not (Some U) (Match.user2_id m)) eqn:E; [reflexivity|].
    apply is_not_participant in E. contradiction.
  - intros HU. rewrite HU. reflexivity.
Qed.

Lemma getConversationMessages_latest (phone : string) (i : Id)
    (limit : option nat) (db : Db) (m : Match.t) (U : User.t) :
  get_match i db = Some m ->
  currentUserOf phone db = Ok (Some U) ->
  participant (User._id U) m ->
  getConversationMessages (Some phone) i limit None db
  = Ok (map messageView
          (skipn (List.length (by_match i (messages db)) - orElse limit 50)
                 (by_match i (messages db)))).
Proof.
  intros Hget HU Hp. unfold getConversationMessages.
  rewrite Hget, HU. apply is_not_participant in Hp. rewrite Hp. simpl.
  rewrite firstn_rev, rev_involutive. reflexivity.
Qed.

(** What [sendMessage] leaves when it succeeds. *)
Lemma sendMessage_sent (now : Z) (i s : Id) (content : string)
    (message_type : option string) (db : Db) (m : Match.t) :
  get_match i db = Some m -> participant s m -> Match.is_active m = true ->
  let db' := after (sendMessage now i s content message_type db) in
  users db' = users db
  /\ matches db' = matches db
  /\ messages db'
     = messages db
       ++ [Message.mk (fresh_id (map Message._id (messages db))) i s content
             (orElse message_type "text"%string) false now].
Proof.
  intros Hget Hp Hact.
  unfold sendMessage, mutation, sendMessage_handler, bind, read, after.
  rewrite Hget, (not_participant_test_false Hp), Hact. simpl.
  destruct message_type; auto.
Qed.

(** X16.  A message that was sent is read back: after a successful
    [sendMessage] every participant gets it from [getConversationMessages]
    (no [before], a limit of 1 or more) as the last entry, unread, with the
    sender, the content, the type and the time of the call. *)
Theorem sent_message_is_read_back (now : Z) (i s : Id) (content : string)
    (message_type : option string) (db : Db) (m : Match.t)
    (phone : string) (U : User.t) (limit : option nat) :
  get_match i db = Some m -> participant s m -> Match.is_active m = true ->
  currentUserOf phone db = Ok (Some U) -> participant (User._id U) m ->
  1 <= orElse limit 50 ->
  exists earlier : list MessageView,
    getConversationMessages (Some phone) i limit None
      (after (sendMessage now i s content message_type db))
    = Ok (earlier
          ++ [{| view_message_id := fresh_id (map Message._id (messages db));
                 view_sender_id := s;
                 view_content := content;
                 view_message_type := orElse message_type "text"%string;
                 view_sent_at := now;
                 view_is_read := false |}]).
Proof.
  intros Hget Hp Hact HU HpU Hlimit.
  destruct (@sendMessage_sent now i s content message_type db m Hget Hp Hact)
    as (Hu & Hm & Hmsg).
  set (db' := after (sendMessage now i s content message_type db)) in *.
  assert (Hget' : get_match i db' = Some m)
    by (unfold get_match; rewrite Hm; exact Hget).
  assert (HU' : currentUserOf phone db' = Ok (Some U))
    by (unfold currentUserOf; rewrite Hu; exact HU).
  pose proof (@getConversationMessages_latest phone i limit db' m U
                Hget' HU' HpU) as E.
  exists (map messageView
            (skipn (S (List.length (by_match i (messages db)))
                    - orElse limit 50)
                   (by_match i (messages db)))).
  rewrite E. f_equal. rewrite Hmsg. unfold by_match.
  rewrite filter_app. cbn [filter Message.match_id].
  rewrite Nat.eqb_refl. fold (by_match i (messages db)).
  rewrite length_app. cbn [List.length].
  rewrite Nat.add_1_r.
  rewrite skipn_app, map_app. f_equal.
  replace (S (List.length (by_match i (messages db))) - orElse limit 50
           - List.length (by_match i (messages db))) with 0 by lia.
  reflexivity.
Qed.

(** X13.  [unmatchUsers] deactivates nothing.  On a match there is, the
    call is rejected for the field [updated_at], which the schema of the
    matches table does not declare, and the database is what it was: a
    participant still gets the match from [getMatchById], active as it was,
    and can still send a message into it.  On an identifier without match
    the call fails for the missing document. *)
Theorem unmatchUsers_never_deactivates (t t' : Z) (i p : Id)
    (content : string) (message_type : option string) (phone : string)
    (db : Db) (m : Match.t) (U : User.t) :
  get_match i db = Some m -> participant p m -> Match.is_active m = true ->
  currentUserOf phone db = Ok (Some U) -> participant (User._id U) m ->
  let db1 := after (unmatchUsers t i db) in
  unmatchUsers t i db = (db, Err SchemaValidation)
  /\ getMatchById (Some phone) i db1 = Ok (Some m)
  /\ snd (sendMessage t' i p content message_type db1)
     = Ok (fresh_id (map Message._id (messages db)))
  /\ (forall j, get_match j db = None ->
        unmatchUsers t j db = (db, Err DocumentNotFound)).
Proof.
  intros Hget Hp Hact HU HpU db1. subst db1.
  destruct (get_match_exists _ _ Hget) as (Hex & _ & _).
  rewrite !unmatchUsers_throws, Hex. unfold after. cbn [fst].
  split; [reflexivity|]. split; [|split].
  - apply is_not_participant in HpU.
    unfold getMatchById. rewrite Hget, HU, HpU. reflexivity.
  - unfold sendMessage, mutation, sendMessage_handler, bind, read.
    rewrite Hget, (not_participant_test_false Hp), Hact. reflexivity.
  - intros j Hj. rewrite unmatchUsers_throws, (get_match_missing _ _ Hj).
    reflexivity.
Qed.

(** The query on the index [by_unread] throws for every match. *)
Lemma unreadFor_throws (U : User.t) (matchId : Id) (l : list Message.t) :
  unreadFor U matchId l = Err IndexRangeMisuse.
Proof. reflexivity. Qed.

Lemma all_throws {A B : Type} (f : A -> Result B) (e : Error) (l : list A) :
  (forall x, f x = Err e) -> l <> [] -> all (map f l) = Err e.
Proof.
  intros Hf Hl. destruct l as [|x r]; [contradiction|].
  cbn [map all]. rewrite Hf. reflexivity.
Qed.

Lemma activeMatchIds_participant (U : User.t) (db : Db) (m : Match.t) :
  In m (matches db) -> participant (User._id U) m ->
  Match.is_active m = true -> activeMatchIds U db <> [].
Proof.
  intros Hin Hp Hact E. unfold activeMatchIds in E.
  apply map_eq_nil in E. apply app_eq_nil in E. destruct E as [E1 E2].
  destruct Hp as [Hp | Hp].
  - assert (H : In m (filter Match.is_active
                 (filter (fun x => Nat.eqb (Match.user1_id x) (User._id U))
                         (matches db)))).
    { apply filter_In. split; [|exact Hact]. apply filter_In.
      split; [exact Hin | apply Nat.eqb_eq, Hp]. }
    rewrite E1 in H. contradiction.
  - assert (H : In m (filter Match.is_active
                 (filter (fun x => Nat.eqb (Match.user2_id x) (User._id U))
                         (matches db)))).
    { apply filter_In. split; [|exact Hact]. apply filter_In.
      split; [exact Hin | apply Nat.eqb_eq, Hp]. }
    rewrite E2 in H. contradiction.
Qed.

Lemma getUnreadMessageCount_cases (phone : string) (db : Db) (U : User.t) :
  currentUserOf phone db = Ok (Some U) ->
  getUnreadMessageCount (Some phone) db
  = match activeMatchIds U db with
    | [] => Ok 0
    | _ :: _ => Err IndexRangeMisuse
    end.
Proof.
  intros HU. unfold getUnreadMessageCount. rewrite HU.
  destruct (activeMatchIds U db) as [|i r] eqn:E; [reflexivity|].
  cbn [List.length Nat.eqb].
  rewrite (@all_throws _ _ _ IndexRangeMisuse); [reflexivity| |discriminate].
  intros x. rewrite unreadFor_throws. reflexivity.
Qed.

(** X17.  [getUnreadMessageCount] never counts a message.  For a user with
    an active match it throws, at the query on the index [by_unread], whose
    range is written [q.and(q.eq(..), q.eq(..))], whether the match has
    unread messages or not; whenever it returns, for whatever identity and
    database, it returns 0. *)
Theorem getUnreadMessageCount_never_counts (identity : option string)
    (db : Db) :
  (forall n : nat, getUnreadMessageCount identity db = Ok n -> n = 0)
  /\ (forall (phone : string) (U : User.t) (m : Match.t),
        identity = Some phone ->
        currentUserOf phone db = Ok (Some U) ->
        In m (matches db) -> participant (User._id U) m ->
        Match.is_active m = true ->
        getUnreadMessageCount identity db = Err IndexRangeMisuse).
Proof.
  split.
  - intros n. destruct identity as [phone|];
      [|intros H; inversion H; reflexivity].
    destruct (currentUserOf phone db) as [[U|]|e] eqn:HU.
    + rewrite (getUnreadMessageCount_cases _ _ HU).
      destruct (activeMatchIds U db); intros H; inversion H; reflexivity.
    + unfold getUnreadMessageCount. rewrite HU.
      intros H; inversion H; reflexivity.
    + unfold getUnreadMessageCount. rewrite HU. discriminate.
  - intros phone U m -> HU Hin Hp Hact.
    rewrite (getUnreadMessageCount_cases _ _ HU).
    pose proof (@activeMatchIds_participant U db m Hin Hp Hact) as Hne.
    destruct (activeMatchIds U db); [contradiction|reflexivity].
Qed.

(* ===================================================================== *)
(** ** Subscriptions                                                      *)
(* ===================================================================== *)

(** The patch of the status is rejected on every subscription there is, for
    the field [updated_at]; on an identifier without subscription it fails
    for the missing document. *)
Lemma status_patch_rejected (i : Id) (f : Subscription.t -> Subscription.t)
    (table : list Subscription.t) :
  patch_validated Subscription._id subscriptions_schema status_patch i f
                  table
  = (table,
     Err (if existsb (fun d => Nat.eqb (Subscription._id d) i) table
          then SchemaValidation else DocumentNotFound)).
Proof.
  unfold patch_validated. destruct (existsb _ table); reflexivity.
Qed.

Lemma active_of_In (u : Id) (table : list Subscription.t)
    (x : Subscription.t) :
  In x (active_of u table) ->
  In x table /\ Subscription.user_id x = u
  /\ Subscription.status x = "active"%string.
Proof.
  unfold active_of. intros H. apply filter_In in H. destruct H as [H Hs].
  apply filter_In in H. destruct H as [H Hu].
  apply Nat.eqb_eq in Hu. apply String.eqb_eq in Hs. auto.
Qed.

Lemma active_of_app (u : Id) (l1 l2 : list Subscription.t) :
  active_of u (l1 ++ l2) = active_of u l1 ++ active_of u l2.
Proof. unfold active_of. rewrite !filter_app. reflexivity. Qed.

(** [createSubscription] on its two paths: for a user without active
    subscription the loop has nothing to cancel and the subscription is
    inserted; for a user with one, the first patch of the loop is
    rejected and the mutation writes nothing. *)
Lemma createSubscription_cases (now : Z) (u : Id) (plan : string)
    (days : Z) (table : list Subscription.t) :
  createSubscription now u plan days table
  = match active_of u table with
    | [] =>
        (table ++ [Subscription.mk (fresh_id (map Subscription._id table)) u
                     plan "active" now (Some (now + days * 86400000)%Z) now],
         Ok (fresh_id (map Subscription._id table)))
    | _ :: _ => (table, Err SchemaValidation)
    end.
Proof.
  unfold createSubscription.
  destruct (active_of u table) as [|x r] eqn:E.
  - cbn [patch_each].
    replace (now + days * 24 * 60 * 60 * 1000)%Z
      with (now + days * 86400000)%Z by lia.
    reflexivity.
  - cbn [patch_each]. rewrite status_patch_rejected.
    assert (Hx : In x (active_of u table)) by (rewrite E; left; reflexivity).
    apply active_of_In in Hx. destruct Hx as (Hx & _ & _).
    assert (Hex : existsb (fun d => Nat.eqb (Subscription._id d)
                                            (Subscription._id x)) table
                  = true).
    { apply existsb_exists. exists x. split; [exact Hx|].
      apply Nat.eqb_refl. }
    rewrite Hex. reflexivity.
Qed.

(** X27.  [createSubscription] (for a whole number of days) succeeds for a
    user without active subscription: the new subscription is appended,
    active from the time of the call for [duration_days] days, it is the
    one active subscription of the user, and the other users keep theirs.
    For a user who has an active subscription it fails and writes nothing:
    the patch that should cancel the earlier subscription has the field
    [updated_at], which the schema of the subscriptions table does not
    declare. *)
Theorem createSubscription_first_or_rejected (now : Z) (u : Id)
    (plan : string) (days : Z) (table : list Subscription.t) :
  let new :=
    Subscription.mk (fresh_id (map Subscription._id table)) u plan "active"
      now (Some (now + days * 86400000)%Z) now in
  (active_of u table = [] ->
   createSubscription now u plan days table
   = (table ++ [new], Ok (Subscription._id new))
   /\ active_of u (table ++ [new]) = [new]
   /\ (forall v, v <> u -> active_of v (table ++ [new]) = active_of v table))
  /\ (active_of u table <> [] ->
      createSubscription now u plan days table
      = (table, Err SchemaValidation)).
Proof.
  intros new. rewrite createSubscription_cases. split.
  - intros E. rewrite E. split; [reflexivity|]. split.
    + rewrite active_of_app, E. unfold active_of, new.
      cbn [filter Subscription.user_id Subscription.status].
      rewrite Nat.eqb_refl. reflexivity.
    + intros v Hv. rewrite active_of_app. unfold active_of at 2, new.
      cbn [filter Subscription.user_id].
      apply Nat.eqb_neq in Hv. rewrite (Nat.eqb_sym u v), Hv.
      apply app_nil_r.
  - intros Hne. destruct (active_of u table); [contradiction|reflexivity].
Qed.

(** What a call of the subscription mutations leaves: the table, with one
    active subscription more when the call was a [createSubscription] for a
    user without active subscription. *)
Lemma subscription_exec_appends (c : SubscriptionCall)
    (table : list Subscription.t) :
  exists added : list Subscription.t,
    subscription_exec c table = table ++ added
    /\ Forall (fun x => Subscription.status x = "active"%string) added
    /\ (forall u, active_of u table <> [] -> active_of u added = []).
Proof.
  destruct c as [now u plan days | now i | now i]; cbn [subscription_exec].
  - rewrite createSubscription_cases.
    destruct (active_of u table) as [|x r] eqn:E; cbn [fst].
    + eexists. split; [reflexivity|]. split; [repeat constructor|].
      intros v Hv. unfold active_of. cbn [filter Subscription.user_id].
      destruct (Nat.eqb u v) eqn:Euv; [|reflexivity].
      apply Nat.eqb_eq in Euv. subst v. contradiction.
    + exists []. rewrite app_nil_r. auto.
  - unfold cancelSubscription. rewrite status_patch_rejected.
    exists []. rewrite app_nil_r. auto.
  - unfold expireSubscription. rewrite status_patch_rejected.
    exists []. rewrite app_nil_r. auto.
Qed.

Lemma subscription_run_appends (calls : list SubscriptionCall)
    (table : list Subscription.t) :
  exists added : list Subscription.t,
    subscription_run calls table = table ++ added
    /\ Forall (fun x => Subscription.status x = "active"%string) added
    /\ (forall u, active_of u table <> [] -> active_of u added = []).
Proof.
  unfold subscription_run. revert table.
  induction calls as [|c r IH]; intros table; cbn [fold_left].
  - exists []. rewrite app_nil_r. auto.
  - destruct (subscription_exec_appends c table) as (a1 & E1 & F1 & H1).
    destruct (IH (subscription_exec c table)) as (a2 & E2 & F2 & H2).
    exists (a1 ++ a2). rewrite E2, E1, app_assoc.
    split; [reflexivity|]. split; [apply Forall_app; auto|].
    intros u Hu. rewrite active_of_app, (H1 u Hu).
    apply H2. rewrite E1, active_of_app.
    intros E. apply app_eq_nil in E. destruct E as [E _]. contradiction.
Qed.

(** X28.  A subscription never ends.  [cancelSubscription] and
    [expireSubscription] fail on every input and write nothing: on a
    subscription there is, their patch is rejected for the field
    [updated_at], which the schema does not declare.  So whatever calls of
    the three subscription mutations are made, no document of the table is
    changed or removed, the documents that are added are active, and a
    user who has an active subscription keeps exactly the active
    subscriptions they have. *)
Theorem subscriptions_never_end (calls : list SubscriptionCall)
    (table : list Subscription.t) :
  (forall (now : Z) (i : Id),
     exists e : Error,
       cancelSubscription now i table = (table, Err e)
       /\ expireSubscription now i table = (table, Err e)
       /\ (In i (map Subscription._id table) -> e = SchemaValidation))
  /\ (exists added : list Subscription.t,
        subscription_run calls table = table ++ added
        /\ Forall (fun x => Subscription.status x = "active"%string) added)
  /\ (forall u : Id,
        active_of u table <> [] ->
        active_of u (subscription_run calls table) = active_of u table).
Proof.
  split; [|split].
  - intros now i. unfold cancelSubscription, expireSubscription.
    rewrite !status_patch_rejected.
    eexists. split; [reflexivity|]. split; [reflexivity|].
    intros Hin. apply in_map_iff in Hin. destruct Hin as (x & Hid & Hx).
    assert (E : existsb (fun d => Nat.eqb (Subscription._id d) i) table
                = true).
    { apply existsb_exists. exists x. split; [exact Hx|].
      apply Nat.eqb_eq, Hid. }
    rewrite E. reflexivity.
  - destruct (subscription_run_appends calls table) as (added & E & F & _).
    exists added. auto.
  - intros u Hu.
    destruct (subscription_run_appends calls table) as (added & E & _ & H).
    rewrite E, active_of_app, (H u Hu). apply app_nil_r.
Qed.

(* ===================================================================== *)
(** ** Interests                                                          *)
(* ===================================================================== *)

Lemma interest_of_app (u : Id) (n : string) (l1 l2 : list Interest.t) :
  interest_of u n (l1 ++ l2) = interest_of u n l1 ++ interest_of u n l2.
Proof. unfold interest_of. rewrite !filter_app. reflexivity. Qed.

Lemma interest_of_new (u v : Id) (n k : string) (i : Id)
    (c : option string) (t : Z) :
  interest_of v k [Interest.mk i u n c t]
  = if Nat.eqb u v && String.eqb n k then [Interest.mk i u n c t] else [].
Proof.
  unfold interest_of. simpl.
  destruct (Nat.eqb u v); simpl; [|reflexivity].
  destruct (String.eqb n k); reflexivity.
Qed.

Lemma fresh_not_in_table {Doc : Type} (key : Doc -> Id) (table : list Doc) :
  filter (fun d => negb (Nat.eqb (key d) (fresh_id (map key table)))) table
  = table.
Proof.
  assert (H : forall d, In d table -> key d <> fresh_id (map key table)).
  { intros d Hd E. apply (fresh_id_fresh (map key table)).
    rewrite <- E. apply in_map, Hd. }
  revert H. generalize (fresh_id (map key table)). intros i H.
  induction table as [|d r IH]; [reflexivity|]. simpl.
  assert (Hd : Nat.eqb (key d) i = false)
    by (apply Nat.eqb_neq, H; left; reflexivity).
  rewrite Hd. simpl. f_equal. apply IH. intros d' Hd'. apply H. right.
  exact Hd'.
Qed.

(** X26.  Adding an interest twice is adding it once: the second call
    returns the identifier of the first and changes nothing, so that a user
    has an interest of a given name once at most.  Removing the interest
    that was just added gives back the table as it was. *)
Theorem interest_add_twice_and_remove (now now' : Z) (u : Id) (n : string)
    (c c' : option string) (table : list Interest.t) :
  interests_unique table ->
  exists (i : Id) (x : Interest.t),
    let table1 := fst (addUserInterest now u n c table) in
    snd (addUserInterest now u n c table) = Ok i
    /\ addUserInterest now' u n c' table1 = (table1, Ok i)
    /\ interest_of u n table1 = [x] /\ Interest._id x = i
    /\ interests_unique table1
    /\ (interest_of u n table = [] ->
        removeUserInterest u n table1 = (table, Ok tt)).
Proof.
  intros Hu. unfold addUserInterest at 1 2 3.
  pose proof (Hu u n) as Hlen.
  destruct (interest_of u n table) as [|x [|y r]] eqn:E;
    cbn [unique fst snd List.length] in *; [| |lia].
  - set (i := fresh_id (map Interest._id table)).
    set (x := Interest.mk i u n c now).
    assert (Ex : interest_of u n (table ++ [x]) = [x]).
    { rewrite interest_of_app, E. subst x. rewrite interest_of_new.
      rewrite Nat.eqb_refl, String.eqb_refl. reflexivity. }
    exists i, x. split; [reflexivity|]. split.
    { unfold addUserInterest. rewrite Ex. reflexivity. }
    split; [exact Ex|]. split; [reflexivity|]. split.
    + intros v k. rewrite interest_of_app, length_app. subst x.
      rewrite interest_of_new.
      destruct (Nat.eqb u v && String.eqb n k) eqn:Euv.
      * apply andb_true_iff in Euv. destruct Euv as [Eu En].
        apply Nat.eqb_eq in Eu. apply String.eqb_eq in En. subst v k.
        rewrite E. simpl. lia.
      * specialize (Hu v k). simpl. lia.
    + intros _. unfold removeUserInterest. rewrite Ex. cbn [unique].
      unfold delete_doc.
      assert (Hex : existsb (fun d => Nat.eqb (Interest._id d)
                                              (Interest._id x))
                            (table ++ [x]) = true).
      { apply existsb_exists. exists x. split;
          [apply in_or_app; right; left; reflexivity | apply Nat.eqb_refl]. }
      rewrite Hex. f_equal. rewrite filter_app.
      subst x. cbn [filter Interest._id]. rewrite Nat.eqb_refl.
      cbn [negb]. rewrite app_nil_r. subst i.
      apply (fresh_not_in_table Interest._id).
  - exists (Interest._id x), x. split; [reflexivity|]. split.
    { unfold addUserInterest. rewrite E. reflexivity. }
    split; [exact E|]. split; [reflexivity|]. split; [exact Hu|].
    intros H. discriminate.
Qed.

(* ===================================================================== *)
(** ** Profile photos                                                     *)
(* ===================================================================== *)

Lemma primary_of_app (u : Id) (l1 l2 : list Photo.t) :
  primary_of u (l1 ++ l2) = primary_of u l1 ++ primary_of u l2.
Proof. unfold primary_of. apply filter_app. Qed.

Lemma photos_of_app (u : Id) (l1 l2 : list Photo.t) :
  photos_of u (l1 ++ l2) = photos_of u l1 ++ photos_of u l2.
Proof. unfold photos_of. apply filter_app. Qed.

(** [addProfilePhoto] on its two paths: with [is_primary] it throws at the
    query on the index [by_primary], before it writes; without, it appends
    the photo, numbered with the number of photos the user has. *)
Lemma addProfilePhoto_cases (now : Z) (u : Id) (url : string)
    (is_primary : bool) (table : list Photo.t) :
  addProfilePhoto now u url is_primary table
  = if is_primary then (table, Err IndexRangeMisuse)
    else (table ++ [Photo.mk (fresh_id (map Photo._id table)) u url false
                             (List.length (photos_of u table)) now],
          Ok (fresh_id (map Photo._id table))).
Proof. destruct is_primary; reflexivity. Qed.

Lemma filter_filter_length {Doc : Type} (sel keep : Doc -> bool)
    (table : list Doc) :
  List.length (filter sel (filter keep table))
  <= List.length (filter sel table).
Proof.
  induction table as [|d r IH]; [apply le_n|]. cbn [filter].
  destruct (keep d); cbn [filter]; destruct (sel d); cbn [List.length]; lia.
Qed.

(** What a call of the photo mutations leaves of the primary photos: no
    more of them for any user, and no photo that was not there. *)
Lemma photo_exec_primary (c : PhotoCall) (table : list Photo.t) :
  (forall v, List.length (primary_of v (photo_exec c table))
             <= List.length (primary_of v table))
  /\ (forall p, In p (photo_exec c table) -> Photo.is_primary p = true ->
                In p table).
Proof.
  destruct c as [now u url is_primary | i]; cbn [photo_exec].
  - rewrite addProfilePhoto_cases. destruct is_primary; cbn [fst].
    + split; [intros v; apply le_n | auto].
    + split.
      * intros v. rewrite primary_of_app. unfold primary_of at 2.
        cbn [filter Photo.is_primary]. rewrite andb_false_r, app_nil_r.
        apply le_n.
      * intros p Hp Hprim. apply in_app_or in Hp.
        destruct Hp as [Hp | [<- | []]]; [exact Hp | discriminate].
  - unfold removeProfilePhoto, delete_doc.
    destruct (existsb _ table); cbn [fst].
    + split.
      * intros v. unfold primary_of. apply filter_filter_length.
      * intros p Hp _. apply filter_In in Hp. tauto.
    + split; [intros v; apply le_n | auto].
Qed.

(** X23.  No photo becomes primary.  [addProfilePhoto] with [is_primary]
    fails on every table and writes nothing: it throws at the query on the
    index [by_primary], whose range is written [q.and(q.eq(..), q.eq(..))].
    So whatever calls of [addProfilePhoto] and [removeProfilePhoto] are
    made, no user has more primary photos than before, every primary photo
    of the table was there before the calls, at most one primary photo per
    user stays so, and a table that starts empty never holds a primary
    photo. *)
Theorem photos_never_become_primary (calls : list PhotoCall)
    (table : list Photo.t) :
  (forall (now : Z) (u : Id) (url : string),
     addProfilePhoto now u url true table = (table, Err IndexRangeMisuse))
  /\ (forall v : Id,
        List.length (primary_of v (photo_run calls table))
        <= List.length (primary_of v table))
  /\ (forall p : Photo.t,
        In p (photo_run calls table) -> Photo.is_primary p = true ->
        In p table)
  /\ (one_primary table -> one_primary (photo_run calls table))
  /\ Forall (fun p => Photo.is_primary p = false) (photo_run calls []).
Proof.
  assert (Hrun : forall calls table,
            (forall v, List.length (primary_of v (photo_run calls table))
                       <= List.length (primary_of v table))
            /\ (forall p, In p (photo_run calls table) ->
                          Photo.is_primary p = true -> In p table)).
  { clear calls table. unfold photo_run.
    induction calls as [|c r IH]; intros table; cbn [fold_left].
    - split; [intros v; apply le_n | auto].
    - destruct (IH (photo_exec c table)) as [Hlen Hin].
      destruct (photo_exec_primary c table) as [Hlen' Hin'].
      split.
      + intros v. specialize (Hlen v). specialize (Hlen' v). lia.
      + intros p Hp Hprim. apply Hin'; auto. }
  split; [intros now u url; apply addProfilePhoto_cases|].
  destruct (Hrun calls table) as [Hlen Hin].
  split; [exact Hlen|]. split; [exact Hin|]. split.
  - intros H1 v. specialize (H1 v). specialize (Hlen v). lia.
  - apply Forall_forall. intros p Hp.
    destruct (Photo.is_primary p) eqn:E; [|reflexivity].
    destruct (proj2 (Hrun calls []) p Hp E).
Qed.

(** X24.  [addProfilePhoto] without [is_primary] succeeds on every table:
    it appends the photo, not primary and numbered with the number of
    photos the user had, and returns its identifier, which no photo of the
    table has.  Where the photos of every user are numbered 0, 1, 2, ... in
    the order of the table, they still are after [addProfilePhoto], with or
    without [is_primary]. *)
Theorem addProfilePhoto_numbers (now : Z) (u : Id) (url : string)
    (table : list Photo.t) :
  let new :=
    Photo.mk (fresh_id (map Photo._id table)) u url false
             (List.length (photos_of u table)) now in
  addProfilePhoto now u url false table = (table ++ [new], Ok (Photo._id new))
  /\ ~ In (Photo._id new) (map Photo._id table)
  /\ (numbered table ->
      forall is_primary : bool,
        numbered (fst (addProfilePhoto now u url is_primary table))).
Proof.
  intros new. split; [reflexivity|]. split; [apply fresh_id_fresh|].
  intros Hnum is_primary. rewrite addProfilePhoto_cases.
  destruct is_primary; cbn [fst]; [exact Hnum|].
  change (numbered (table ++ [new])).
  intros v. rewrite photos_of_app.
  assert (Hlast : photos_of v [new] = if Nat.eqb u v then [new] else [])
    by reflexivity.
  rewrite Hlast. destruct (Nat.eqb u v) eqn:E.
  - apply Nat.eqb_eq in E. subst v.
    rewrite map_app, length_app, (Hnum u). cbn [map List.length].
    rewrite Nat.add_1_r, seq_S. reflexivity.
  - rewrite !app_nil_r. apply Hnum.
Qed.

Lemma removed_one {Doc : Type} (key : Doc -> Id) (table : list Doc)
    (p : Doc) :
  NoDup (map key table) -> In p table ->
  S (List.length (filter (fun d => negb (Nat.eqb (key d) (key p))) table))
  = List.length table.
Proof.
  induction table as [|d r IH]; simpl; [tauto|].
  intros Hn Hin. inversion Hn as [|? ? Hd Hr]; subst.
  destruct Hin as [->|Hin].
  - rewrite Nat.eqb_refl. simpl. f_equal.
    clear IH Hn Hr. induction r as [|x r IH]; [reflexivity|]. simpl.
    destruct (Nat.eqb_spec (key x) (key p)) as [E|_].
    + exfalso. apply Hd. left. exact E.
    + simpl. f_equal. apply IH. intros H. apply Hd. right. exact H.
  - destruct (Nat.eqb_spec (key d) (key p)) as [E|_].
    + exfalso. apply Hd. rewrite E. apply in_map, Hin.
    + simpl. f_equal. apply IH; assumption.
Qed.

(** X25.  Removing a photo does not renumber the others: when a photo that
    is not the last one of a user is removed, the next photo the user adds
    gets the number of the user's last photo, so that two photos of the user
    carry the same [order_index]. *)
Theorem removed_photo_number_is_reused (now : Z) (url : string)
    (table : list Photo.t) (p : Photo.t) :
  numbered table -> NoDup (map Photo._id table) -> In p table ->
  S (Photo.order_index p)
  < List.length (photos_of (Photo.user_id p) table) ->
  let u := Photo.user_id p in
  let table1 := fst (removeProfilePhoto (Photo._id p) table) in
  let table2 := fst (addProfilePhoto now u url false table1) in
  exists q new : Photo.t,
    In q (photos_of u table2) /\ In new (photos_of u table2)
    /\ Photo._id q <> Photo._id new
    /\ Photo.order_index q = Photo.order_index new.
Proof.
  intros Hnum Hn Hp Hlast u table1 table2.
  set (n := List.length (photos_of u table)) in *.
  assert (Hlast' : S (Photo.order_index p) < n) by exact Hlast.
  assert (Hpu : In p (photos_of u table))
    by (unfold photos_of; apply filter_In; split;
        [exact Hp | apply Nat.eqb_refl]).
  assert (Ht1 : table1
                = filter (fun d => negb (Nat.eqb (Photo._id d) (Photo._id p)))
                         table).
  { subst table1. unfold removeProfilePhoto, delete_doc.
    assert (Hex : existsb (fun d => Nat.eqb (Photo._id d) (Photo._id p))
                          table = true)
      by (apply existsb_exists; exists p; split;
          [exact Hp | apply Nat.eqb_refl]).
    rewrite Hex. reflexivity. }
  assert (Hn1 : S (List.length (photos_of u table1)) = n).
  { rewrite Ht1. unfold photos_of. rewrite filter_comm.
    apply (removed_one Photo._id); [|exact Hpu].
    unfold photos_of. apply filter_keeps_distinct. exact Hn. }
  assert (Hq : exists q, In q (photos_of u table)
                         /\ Photo.order_index q = n - 1).
  { assert (Hin : In (n - 1) (map Photo.order_index (photos_of u table))).
    { rewrite Hnum. apply in_seq. fold n. lia. }
    apply in_map_iff in Hin. destruct Hin as (q & Hq & Hin). eauto. }
  destruct Hq as (q & Hq & Hqi).
  assert (Hqp : Photo._id q <> Photo._id p).
  { intros E.
    assert (q = p).
    { apply (NoDup_map_injective Photo._id table); auto.
      unfold photos_of in Hq. apply filter_In in Hq. tauto. }
    subst q. lia. }
  assert (Hq1 : In q table1).
  { rewrite Ht1. apply filter_In. split.
    - unfold photos_of in Hq. apply filter_In in Hq. tauto.
    - apply negb_true_iff, Nat.eqb_neq. exact Hqp. }
  assert (Hqu : Photo.user_id q = u)
    by (unfold photos_of in Hq; apply filter_In in Hq;
        apply Nat.eqb_eq; tauto).
  subst table2. unfold addProfilePhoto. cbn [fst].
  exists q, (Photo.mk (fresh_id (map Photo._id table1)) u url false
                      (List.length (photos_of u table1)) now).
  split; [|split; [|split]].
  - unfold photos_of. apply filter_In. split.
    + apply in_or_app. left. exact Hq1.
    + apply Nat.eqb_eq. exact Hqu.
  - unfold photos_of. apply filter_In. split.
    + apply in_or_app. right. left. reflexivity.
    + apply Nat.eqb_refl.
  - cbn [Photo._id]. intros E.
    apply (fresh_id_fresh (map Photo._id table1)). rewrite <- E.
    apply in_map, Hq1.
  - cbn [Photo.order_index]. lia.
Qed.

(* ===================================================================== *)
(** ** The users table                                                    *)
(* ===================================================================== *)

Lemma by_phone_absent (phone : string) (table : list Account.t) :
  by_phone phone table = [] <-> ~ In phone (map Account.phone_number table).
Proof.
  unfold by_phone. induction table as [|d r IH]; simpl; [tauto|].
  destruct (String.eqb_spec (Account.phone_number d) phone) as [E|E].
  - split; [discriminate|]. intros H. exfalso. apply H. left. exact E.
  - rewrite IH. tauto.
Qed.

Lemma by_phone_at_most_one (phone : string) (table : list Account.t) :
  NoDup (map Account.phone_number table) ->
  List.length (by_phone phone table) <= 1.
Proof.
  induction table as [|d r IH]; [simpl; lia|].
  intros Hn. cbn [map] in Hn. inversion Hn as [|? ? Hd Hr]; subst.
  unfold by_phone in *. cbn [filter].
  destruct (String.eqb_spec (Account.phone_number d) phone) as [E|E].
  - assert (Hnil : by_phone phone r = [])
      by (apply by_phone_absent; rewrite <- E; exact Hd).
    unfold by_phone in Hnil. rewrite Hnil. simpl. lia.
  - apply IH, Hr.
Qed.

(** A patch of the users table that keeps phone number and identifier. *)
Lemma patch_account_distinct (i : Id) (f : Account.t -> Account.t)
    (table : list Account.t) :
  (forall a, Account.phone_number (f a) = Account.phone_number a) ->
  (forall a, Account._id (f a) = Account._id a) ->
  accounts_distinct table ->
  accounts_distinct (fst (patch_doc Account._id i f table)).
Proof.
  intros Hp Hi [Hn1 Hn2]. unfold patch_doc.
  destruct (existsb _ table); cbn [fst]; [|split; assumption].
  split; rewrite map_map.
  - erewrite map_ext; [exact Hn1|]. intros a. simpl.
    destruct (Nat.eqb (Account._id a) i); [apply Hp | reflexivity].
  - erewrite map_ext; [exact Hn2|]. intros a. simpl.
    destruct (Nat.eqb (Account._id a) i); [apply Hi | reflexivity].
Qed.

Lemma createUser_distinct (now : Z) (phone : string)
    (table : list Account.t) :
  accounts_distinct table ->
  accounts_distinct (fst (createUser now phone table)).
Proof.
  intros [Hn1 Hn2]. unfold createUser.
  destruct (by_phone phone table) as [|a [|b r]] eqn:E; cbn [unique fst];
    try (split; assumption).
  split; rewrite map_app; cbn [map Account.phone_number Account._id].
  - apply NoDup_app; repeat split; try assumption.
    + constructor; [simpl; tauto | constructor].
    + intros x Hx [<-|[]]. apply by_phone_absent in E. exact (E Hx).
  - apply NoDup_app; repeat split; try assumption.
    + constructor; [simpl; tauto | constructor].
    + intros x Hx [<-|[]]. exact (fresh_id_fresh _ Hx).
Qed.

Lemma account_exec_distinct (c : AccountCall) (table : list Account.t) :
  accounts_distinct table -> accounts_distinct (account_exec c table).
Proof.
  intros H. destruct c; simpl.
  - apply createUser_distinct, H.
  - apply patch_account_distinct; auto.
  - apply patch_account_distinct; auto.
  - apply patch_account_distinct; auto.
  - apply patch_account_distinct; auto.
Qed.

Lemma currentUserOf_accounts (phone : string) (db : Db)
    (table : list Account.t) :
  users db = map profileOf table ->
  currentUserOf phone db
  = match unique (by_phone phone table) with
    | Ok r => Ok (option_map profileOf r)
    | Err e => Err e
    end.
Proof.
  intros Hu. unfold currentUserOf, by_phone. rewrite Hu.
  assert (Hf : filter (fun u => String.eqb (User.phone_number u) phone)
                      (map profileOf table)
               = map profileOf
                   (filter (fun a => String.eqb (Account.phone_number a)
                                                phone) table)).
  { clear Hu. induction table as [|a r IH]; [reflexivity|]. simpl.
    destruct (String.eqb (Account.phone_number a) phone); simpl;
      rewrite IH; reflexivity. }
  rewrite Hf.
  destruct (filter _ table) as [|a [|b r]]; reflexivity.
Qed.

Lemma account_run_distinct (calls : list AccountCall)
    (table : list Account.t) :
  accounts_distinct table -> accounts_distinct (account_run calls table).
Proof.
  unfold account_run. revert table.
  induction calls as [|c r IH]; intros table H; simpl; [exact H|].
  apply IH. apply account_exec_distinct. exact H.
Qed.

(** X21.  Whatever calls of the user mutations are made on an empty users
    table, in whatever order, phone numbers and identifiers stay distinct;
    the look-up of the current user by phone number, with which the queries
    begin, then never fails on finding two users. *)
Theorem accounts_stay_distinct (calls : list AccountCall) (phone : string)
    (db : Db) :
  users db = map profileOf (account_run calls []) ->
  accounts_distinct (account_run calls [])
  /\ exists r, currentUserOf phone db = Ok r.
Proof.
  intros Hu.
  assert (Hd : accounts_distinct (account_run calls []))
    by (apply account_run_distinct; split; constructor).
  split; [exact Hd|].
  rewrite (@currentUserOf_accounts phone db _ Hu).
  pose proof (@by_phone_at_most_one phone _ (proj1 Hd)) as Hlen.
  destruct (by_phone phone (account_run calls [])) as [|a [|b r]];
    cbn [unique List.length] in *; [eauto | eauto | lia].
Qed.

(** X20.  [createUser] twice is [createUser] once: on a table of distinct
    phone numbers the call succeeds, a second call for the same number
    returns the same identifier with [existed: true] and changes nothing,
    and the table holds exactly one user of the number.  A new user is
    appended unverified, with no profile field set. *)
Theorem createUser_idempotent (now now' : Z) (phone : string)
    (table : list Account.t) :
  accounts_distinct table ->
  let table1 := fst (createUser now phone table) in
  exists (i : Id) (e : bool) (a : Account.t),
    snd (createUser now phone table)
    = Ok {| created_user_id := i; existed := e |}
    /\ createUser now' phone table1
       = (table1, Ok {| created_user_id := i; existed := true |})
    /\ by_phone phone table1 = [a] /\ Account._id a = i
    /\ (e = true -> table1 = table)
    /\ (e = false ->
        by_phone phone table = []
        /\ table1
           = table ++ [Account.mk i phone None None false None None None
                                  None None None None None None None None
                                  None now now]).
Proof.
  intros [Hn1 Hn2] table1. subst table1.
  pose proof (@by_phone_at_most_one phone table Hn1) as Hlen.
  destruct (by_phone phone table) as [|a [|b r]] eqn:E;
    cbn [List.length] in Hlen; [| |lia].
  - set (i := fresh_id (map Account._id table)).
    set (a := Account.mk i phone None None false None None None None None
                         None None None None None None None now now).
    assert (Hc : createUser now phone table
                 = (table ++ [a],
                    Ok {| created_user_id := i; existed := false |}))
      by (unfold createUser; rewrite E; reflexivity).
    assert (Ea : by_phone phone (table ++ [a]) = [a]).
    { unfold by_phone in *. rewrite filter_app, E. subst a.
      cbn [filter Account.phone_number]. rewrite String.eqb_refl.
      reflexivity. }
    rewrite Hc. cbn [fst snd].
    exists i, false, a. split; [reflexivity|]. split.
    { unfold createUser. rewrite Ea. reflexivity. }
    split; [exact Ea|]. split; [reflexivity|].
    split; [discriminate|]. intros _. split; reflexivity.
  - assert (Hc : createUser now phone table
                 = (table, Ok {| created_user_id := Account._id a;
                                 existed := true |}))
      by (unfold createUser; rewrite E; reflexivity).
    rewrite Hc. cbn [fst snd].
    exists (Account._id a), true, a. split; [reflexivity|]. split.
    { unfold createUser. rewrite E. reflexivity. }
    split; [exact E|]. split; [reflexivity|].
    split; [reflexivity | discriminate].
Qed.

Lemma patch_last {Doc : Type} (key : Doc -> Id) (f : Doc -> Doc)
    (table : list Doc) (a : Doc) :
  (forall d, In d table -> key d <> key a) ->
  patch_doc key (key a) f (table ++ [a]) = (table ++ [f a], Ok tt).
Proof.
  intros Hne. unfold patch_doc.
  assert (Hex : existsb (fun d => Nat.eqb (key d) (key a)) (table ++ [a])
                = true).
  { apply existsb_exists. exists a. split;
      [apply in_or_app; right; left; reflexivity | apply Nat.eqb_refl]. }
  rewrite Hex, map_app. cbn [map]. rewrite Nat.eqb_refl.
  f_equal. f_equal. rewrite <- (map_id table) at 2.
  apply map_ext_in. intros d Hd.
  apply Hne, Nat.eqb_neq in Hd. rewrite Hd. reflexivity.
Qed.

(** X22.  The first steps of a new user.  After [createUser] and
    [createInitialProfile] the discovery feed of the user is empty, for
    every other user there may be: the initial profile has a birth date and
    the default preferences (50 km, 18 to 100, everyone) and no location.
    Once [updateUserProfile] has stored a location, the user is a requester
    with these default preferences, and the feed is computed. *)
Theorem new_user_feed_needs_location (t t' t'' : Z) (phone name : string)
    (birth : Z) (gender : string) (here : Location)
    (table : list Account.t) :
  by_phone phone table = [] ->
  let i := fresh_id (map Account._id table) in
  let table1 := fst (createUser t phone table) in
  let table2 := fst (createInitialProfile t' i name birth gender table1) in
  let table3 :=
    fst (updateUserProfile t'' i (location_update here) table2) in
  (forall (calculateDistance : Location -> Location -> JS.number) (now : Z)
          (limit offset : option Z) (db : Db),
     users db = map profileOf table2 ->
     getDiscoveryFeed calculateDistance now (Some phone) limit offset db
     = Ok [])
  /\ (birth <> 0%Z ->
      forall db : Db,
        users db = map profileOf table3 ->
        requester_of phone db
          (User.mk i phone (Some name) (Some birth) (Some gender) None
                   (Some here) (Some 50%Q) (Some 18%Z) (Some 100%Z)
                   (Some "everyone"%string))
          here).
Proof.
  intros E i table1 table2 table3.
  set (a0 := Account.mk i phone None None false None None None None None
                        None None None None None None None t t).
  assert (H1 : table1 = table ++ [a0])
    by (subst table1; unfold createUser; rewrite E; reflexivity).
  assert (Hfresh : forall d, In d table -> Account._id d <> Account._id a0)
    by (intros d Hd; apply (fresh_differs Account._id), Hd).
  set (a2 := Account.mk i phone None None false None (Some name) None
                        (Some birth) (Some gender) None None None
                        (Some 50%Q) (Some 18%Z) (Some 100%Z)
                        (Some "everyone"%string) t t').
  assert (H2 : table2 = table ++ [a2]).
  { subst table2. rewrite H1. unfold createInitialProfile.
    change i with (Account._id a0). rewrite patch_last by exact Hfresh.
    reflexivity. }
  set (a3 := Account.mk i phone None None false None (Some name) None
                        (Some birth) (Some gender) None (Some here) None
                        (Some 50%Q) (Some 18%Z) (Some 100%Z)
                        (Some "everyone"%string) t t'').
  assert (H3 : table3 = table ++ [a3]).
  { subst table3. rewrite H2. unfold updateUserProfile.
    change i with (Account._id a2). rewrite patch_last by exact Hfresh.
    reflexivity. }
  assert (Hlook : forall a, Account.phone_number a = phone ->
            by_phone phone (table ++ [a]) = [a]).
  { intros a Ha. unfold by_phone in *. rewrite filter_app, E.
    cbn [filter]. rewrite Ha, String.eqb_refl. reflexivity. }
  split.
  - intros dist now limit offset db Hu.
    pose proof (@currentUserOf_accounts phone db table2 Hu) as Hcur.
    rewrite H2, (Hlook a2 eq_refl) in Hcur. cbn [unique option_map] in Hcur.
    unfold getDiscoveryFeed. unfold currentUserOf in Hcur. rewrite Hcur.
    reflexivity.
  - intros Hb db Hu.
    pose proof (@currentUserOf_accounts phone db table3 Hu) as Hcur.
    rewrite H3, (Hlook a3 eq_refl) in Hcur. cbn [unique option_map] in Hcur.
    unfold requester_of. unfold currentUserOf in Hcur. rewrite Hcur.
    split; [reflexivity|]. split; [reflexivity|].
    cbn [User.birth_date truthy]. apply negb_true_iff, Z.eqb_neq, Hb.
Qed.

(* ===================================================================== *)
(** ** The theorems on the examples                                       *)
(* ===================================================================== *)

Lemma requester_of_young_db : requester_of "+100" young_db requester home.
Proof. unfold young_db. apply requester_of_db_of. reflexivity. Qed.

Lemma tie_page_is_the_feed (limit offset : option Z) :
  orElse limit 20%Z = 20%Z -> orElse offset 0%Z = 0%Z ->
  getDiscoveryFeed gridDistance today (Some "+100"%string) limit offset tie_db
  = Ok tie_page.
Proof.
  intros Hl Ho. unfold getDiscoveryFeed. rewrite Hl, Ho.
  vm_compute. reflexivity.
Qed.

Lemma tie_first_in_tie_page : In tie_first tie_page.
Proof. vm_compute. left. reflexivity. Qed.

Lemma calculateAge_days_witness :
  (365 * calculateAge today 830908800000
   <= today / JS.ms_per_day - 830908800000 / JS.ms_per_day
   < 366 * (calculateAge today 830908800000 + 1))%Z.
Proof.
  apply (@calculateAge_days today 830908800000).
  vm_compute. discriminate.
Defined.

Lemma feed_age_at_most_age_max_witness :
  age tie_first = Some 31%Z
  /\ (31 <= orElse (User.age_max requester) 100)%Z.
Proof.
  split; [reflexivity|].
  assert (Hmax : (0 <= orElse (User.age_max requester) 100)%Z)
    by (vm_compute; discriminate).
  apply (@feed_age_at_most_age_max gridDistance today "+100" tie_db requester
           home 20 0 tie_first 31 requester_of_tie_db Hmax tie_page).
  - apply (tie_page_is_the_feed (Some 20%Z) (Some 0%Z)); reflexivity.
  - exact tie_first_in_tie_page.
  - reflexivity.
Defined.

Lemma feed_age_at_least_age_min_less_one_witness :
  age young_first = Some 24%Z
  /\ (orElse (User.age_min requester) 18 - 1 <= 24)%Z.
Proof.
  split; [reflexivity|].
  assert (Hmin : (2 <= orElse (User.age_min requester) 18 <= 366)%Z)
    by (vm_compute; split; discriminate).
  apply (@feed_age_at_least_age_min_less_one gridDistance today "+100"
           young_db requester home None None young_first 24
           requester_of_young_db Hmin [young_first]).
  - vm_compute. reflexivity.
  - left. reflexivity.
  - reflexivity.
Defined.

Lemma feed_hides_self_and_swiped_witness :
  user_id tie_first <> User._id requester
  /\ by_pair (User._id requester) (user_id tie_first) (swipes tie_db) = []
  /\ exists u, In u (users tie_db) /\ User._id u = user_id tie_first
               /\ User.location u <> None.
Proof.
  apply (@feed_hides_self_and_swiped gridDistance today "+100" tie_db
           requester home None None tie_page tie_first requester_of_tie_db).
  - apply tie_page_is_the_feed; reflexivity.
  - exact tie_first_in_tie_page.
Defined.

Lemma feed_distance_and_gender_witness :
  match distance tie_nearest with
  | JS.finite d => (d <= orElse (User.max_distance requester) 50)%Q
  | JS.NaN => True
  end
  /\ (JS.toLowerCase (orElse (User.show_me requester) "everyone"%string)
      = "men"%string ->
      option_map JS.toLowerCase (User.gender (user tie_nearest))
      = Some "male"%string)
  /\ (JS.toLowerCase (orElse (User.show_me requester) "everyone"%string)
      = "women"%string ->
      option_map JS.toLowerCase (User.gender (user tie_nearest))
      = Some "female"%string).
Proof.
  apply (@feed_distance_and_gender gridDistance today requester home tie_db
           tie_nearest).
  vm_compute. left. reflexivity.
Defined.

(** A distance that is not a number is shown.  The candidate is on the
    southern hemisphere, where [brokenDistance] from the requester is NaN,
    as the haversine formula of the code is for points that are nearly
    antipodal: the candidate passes the distance filter of 50 km and is in
    the feed, with the distance NaN. *)
Example nan_distance_is_shown :
  getDiscoveryFeed brokenDistance today (Some "+100"%string) None None
                   south_db
  = Ok [{| user_id := 31; first_name := Some "Sam"%string;
           age := Some 31%Z; bio := None; distance_km := JS.NaN;
           photos := [] |}].
Proof. vm_compute. reflexivity. Qed.

Lemma feed_after_swipe_witness :
  candidates gridDistance today requester home tie_swiped_db
  = filter (fun c => negb (Nat.eqb (User._id (user c)) 3)) tie_candidates.
Proof.
  destruct (@feed_after_swipe gridDistance today "+100" tie_db tie_swiped_db
              requester home (Swipe.mk 1 1 3 pass 5) requester_of_tie_db
              eq_refl eq_refl eq_refl) as (_ & H & _).
  exact H.
Defined.

Lemma feed_page_size_witness : List.length five_page <= 2.
Proof.
  apply (@feed_page_size gridDistance today (Some "+100"%string)
           (Some 2%Z) (Some 0%Z) five_db five_page).
  - vm_compute. discriminate.
  - vm_compute. reflexivity.
Defined.

Lemma feed_negative_limit_witness :
  page_of five_db (-2) 0
  = Ok (map (feedEntry today)
          (firstn
             (List.length (candidates gridDistance today requester home
                                      five_db) - 2)
             (candidates gridDistance today requester home five_db))).
Proof.
  apply (@feed_negative_limit gridDistance today "+100" five_db requester
           home 2 requester_of_five_db).
  reflexivity.
Defined.

Lemma sendMessage_notifies_recipient_witness :
  snd (sendMessage 40 7 2 "hello" None talk_db) = Ok 5
  /\ notifications (after (sendMessage 40 7 2 "hello" None talk_db))
     = [Notification.mk 1 1 "new_message" (Some 5) "New Message" "hello"
                        false 40].
Proof.
  destruct (@sendMessage_notifies_recipient 40 7 2 "hello" None talk_db
              talk_match eq_refl (or_introl eq_refl) eq_refl)
    as (H1 & H2 & _).
  split; [exact H1 | exact H2].
Defined.

Lemma sent_message_is_read_back_witness :
  exists earlier : list MessageView,
    getConversationMessages (Some "+100"%string) 7 None None
      (after (sendMessage 40 7 2 "hello" None talk_db))
    = Ok (earlier
          ++ [{| view_message_id := 5; view_sender_id := 2;
                 view_content := "hello"; view_message_type := "text";
                 view_sent_at := 40; view_is_read := false |}]).
Proof.
  apply (@sent_message_is_read_back 40 7 2 "hello" None talk_db talk_match
           "+100" requester None eq_refl (or_introl eq_refl) eq_refl eq_refl
           (or_intror eq_refl)).
  simpl. lia.
Defined.

Lemma talk_db_message_ids : NoDup (map Message._id (messages talk_db)).
Proof. simpl. repeat constructor. simpl. tauto. Qed.

Lemma markConversationAsRead_scope_witness :
  markConversationAsRead 7 2 talk_db
  = ({| users := users talk_db;
        swipes := swipes talk_db;
        matches := matches talk_db;
        messages := [Message.mk 4 7 1 "hi" "text" true 30];
        notifications := [] |}, Ok tt).
Proof.
  exact (@markConversationAsRead_scope 7 2 talk_db talk_match eq_refl
           talk_db_message_ids).
Defined.

Lemma getConversationMessages_window_witness :
  getConversationMessages (Some "+100"%string) 7 (Some 1) None talk_db
  = Ok [{| view_message_id := 4; view_sender_id := 1; view_content := "hi";
           view_message_type := "text"; view_sent_at := 30;
           view_is_read := false |}]
  /\ getConversationMessages (Some "+105"%string) 7 (Some 1) None talk_db
     = Err Unauthorized.
Proof.
  destruct (@getConversationMessages_window "+100" 7 (Some 1) None talk_db
              talk_match eq_refl) as (Hin & _ & _).
  destruct (@getConversationMessages_window "+105" 7 (Some 1) None talk_db
              talk_match eq_refl) as (_ & _ & Hnone).
  split.
  - apply (Hin requester eq_refl). right. reflexivity.
  - apply Hnone. reflexivity.
Defined.

Lemma accounts_distinct_nil : accounts_distinct [].
Proof. split; constructor. Qed.

Lemma createUser_idempotent_witness :
  exists (i : Id) (e : bool) (a : Account.t),
    snd (createUser 80 "+107" (account_run signups []))
    = Ok {| created_user_id := i; existed := e |}
    /\ createUser 90 "+107" (fst (createUser 80 "+107"
                                             (account_run signups [])))
       = (fst (createUser 80 "+107" (account_run signups [])),
          Ok {| created_user_id := i; existed := true |})
    /\ by_phone "+107" (fst (createUser 80 "+107" (account_run signups [])))
       = [a]
    /\ Account._id a = i.
Proof.
  destruct (@createUser_idempotent 80 90 "+107" (account_run signups [])
              (account_run_distinct signups accounts_distinct_nil))
    as (i & e & a & H1 & H2 & H3 & H4 & _).
  exists i, e, a.
  split; [exact H1|]. split; [exact H2|]. split; [exact H3 | exact H4].
Defined.

Lemma accounts_stay_distinct_witness :
  accounts_distinct (account_run signups [])
  /\ exists r,
       currentUserOf "+100" (accounts_db (account_run signups [])) = Ok r.
Proof.
  exact (@accounts_stay_distinct signups "+100"
           (accounts_db (account_run signups [])) eq_refl).
Defined.

Lemma new_user_feed_needs_location_witness :
  getDiscoveryFeed gridDistance today (Some "+100"%string) None None
    (accounts_db
       (account_run [CreateUser 10 "+105"; CreateUser 20 "+100";
                     CreateInitialProfile 30 2 "Ann" 830908800000 "female"]
                    []))
  = Ok []
  /\ requester_of "+100"
       (accounts_db
          (account_run [CreateUser 10 "+105"; CreateUser 20 "+100";
                        CreateInitialProfile 30 2 "Ann" 830908800000 "female";
                        UpdateUserProfile 40 2 (location_update home)]
                       []))
       (User.mk 2 "+100" (Some "Ann"%string) (Some 830908800000%Z)
                (Some "female"%string) None (Some home) (Some 50%Q)
                (Some 18%Z) (Some 100%Z) (Some "everyone"%string))
       home.
Proof.
  destruct (@new_user_feed_needs_location 20 30 40 "+100" "Ann" 830908800000
              "female" home (account_run [CreateUser 10 "+105"] []) eq_refl)
    as [Hempty Hfeed].
  split.
  - apply Hempty. reflexivity.
  - apply Hfeed; [discriminate | reflexivity].
Defined.

Lemma album_numbered : numbered album.
Proof. intros u. destruct u as [|[|[|u]]]; reflexivity. Qed.

Lemma album_ids : NoDup (map Photo._id album).
Proof.
  simpl. repeat constructor; simpl; intros H;
    repeat (destruct H as [H|H]; [discriminate|]); exact H.
Qed.

Lemma removed_photo_number_is_reused_witness :
  exists q new : Photo.t,
    In q (photos_of 1 (fst (addProfilePhoto 50 1 "e.jpg" false
                              (fst (removeProfilePhoto 2 album)))))
    /\ In new (photos_of 1 (fst (addProfilePhoto 50 1 "e.jpg" false
                                   (fst (removeProfilePhoto 2 album)))))
    /\ Photo._id q <> Photo._id new
    /\ Photo.order_index q = Photo.order_index new.
Proof.
  apply (@removed_photo_number_is_reused 50 "e.jpg" album
           (Photo.mk 2 1 "b.jpg" false 1 20) album_numbered album_ids).
  - right. left. reflexivity.
  - simpl. lia.
Defined.

Lemma hobbies_unique : interests_unique hobbies.
Proof.
  intros u n. unfold interest_of, hobbies.
  destruct u as [|[|[|u]]];
    cbn [filter Interest.user_id Interest.interest_name Nat.eqb];
    try destruct (String.eqb "chess" n); cbn [List.length]; lia.
Qed.

Lemma interest_add_twice_and_remove_witness :
  exists (i : Id) (x : Interest.t),
    snd (addUserInterest 30 1 "hiking" None hobbies) = Ok i
    /\ addUserInterest 40 1 "hiking" (Some "sport"%string)
         (fst (addUserInterest 30 1 "hiking" None hobbies))
       = (fst (addUserInterest 30 1 "hiking" None hobbies), Ok i)
    /\ interest_of 1 "hiking" (fst (addUserInterest 30 1 "hiking" None hobbies))
       = [x]
    /\ Interest._id x = i
    /\ removeUserInterest 1 "hiking"
         (fst (addUserInterest 30 1 "hiking" None hobbies))
       = (hobbies, Ok tt).
Proof.
  destruct (@interest_add_twice_and_remove 30 40 1 "hiking" None
              (Some "sport"%string) hobbies hobbies_unique)
    as (i & x & H1 & H2 & H3 & H4 & _ & H6).
  exists i, x.
  split; [exact H1|]. split; [exact H2|]. split; [exact H3|].
  split; [exact H4|]. apply H6. reflexivity.
Defined.

Lemma unmatchUsers_never_deactivates_witness :
  unmatchUsers 40 7 talk_db = (talk_db, Err SchemaValidation)
  /\ getMatchById (Some "+100"%string) 7 (after (unmatchUsers 40 7 talk_db))
     = Ok (Some talk_match)
  /\ snd (sendMessage 50 7 1 "again" None (after (unmatchUsers 40 7 talk_db)))
     = Ok 5
  /\ unmatchUsers 40 8 talk_db = (talk_db, Err DocumentNotFound).
Proof.
  destruct (@unmatchUsers_never_deactivates 40 50 7 1 "again" None "+100"
              talk_db talk_match requester eq_refl (or_intror eq_refl)
              eq_refl eq_refl (or_intror eq_refl))
    as (H1 & H2 & H3 & H4).
  split; [exact H1|]. split; [exact H2|]. split; [exact H3|].
  apply H4. reflexivity.
Defined.

Lemma getUnreadMessageCount_never_counts_witness :
  unreadOf 2 7 (messages talk_db) = [Message.mk 4 7 1 "hi" "text" false 30]
  /\ getUnreadMessageCount (Some "+102"%string) talk_db
     = Err IndexRangeMisuse.
Proof.
  destruct (getUnreadMessageCount_never_counts (Some "+102"%string) talk_db)
    as [_ Hthrows].
  split; [reflexivity|].
  apply (Hthrows "+102"%string (person 2 "+102" 789696000000 home)
                 talk_match eq_refl eq_refl).
  - left. reflexivity.
  - left. reflexivity.
  - reflexivity.
Defined.

Lemma album_one_primary : one_primary album.
Proof.
  intros u. unfold primary_of, album.
  destruct u as [|[|[|u]]]; cbn; lia.
Qed.

Lemma photos_never_become_primary_witness :
  addProfilePhoto 50 1 "e.jpg" true album = (album, Err IndexRangeMisuse)
  /\ one_primary (photo_run album_calls album)
  /\ Forall (fun p => Photo.is_primary p = false) (photo_run album_calls []).
Proof.
  destruct (photos_never_become_primary album_calls album)
    as (Hthrows & _ & _ & Hone & Hnone).
  split; [apply Hthrows|]. split; [exact (Hone album_one_primary)|].
  exact Hnone.
Defined.

Lemma addProfilePhoto_numbers_witness :
  addProfilePhoto 50 1 "e.jpg" false album
  = (album ++ [Photo.mk 5 1 "e.jpg" false 3 50], Ok 5)
  /\ numbered (fst (addProfilePhoto 50 1 "e.jpg" false album)).
Proof.
  destruct (addProfilePhoto_numbers 50 1 "e.jpg" album) as (H1 & _ & H3).
  split; [exact H1|]. exact (H3 album_numbered false).
Defined.

Lemma createSubscription_first_or_rejected_witness :
  createSubscription 50 2 "premium" 30 plans
  = (plans ++ [Subscription.mk 3 2 "premium" "active" 50
                               (Some 2592000050%Z) 50], Ok 3)
  /\ createSubscription 50 1 "premium" 30 plans
     = (plans, Err SchemaValidation).
Proof.
  destruct (createSubscription_first_or_rejected 50 2 "premium" 30 plans)
    as [Hfirst _].
  destruct (createSubscription_first_or_rejected 50 1 "premium" 30 plans)
    as [_ Hrejected].
  split.
  - destruct (Hfirst eq_refl) as [H _]. exact H.
  - apply Hrejected. discriminate.
Defined.

Lemma subscriptions_never_end_witness :
  cancelSubscription 60 1 plans = (plans, Err SchemaValidation)
  /\ active_of 1 (subscription_run plan_calls plans) = active_of 1 plans.
Proof.
  destruct (subscriptions_never_end plan_calls plans)
    as (Hends & _ & Hkeeps).
  split.
  - destruct (Hends 60%Z 1) as (e & Hc & _ & He).
    rewrite Hc. rewrite He; [reflexivity|]. left. reflexivity.
  - apply Hkeeps. discriminate.
Defined.
